(** * libnetwork: the controller / network / endpoint registry of network.go

    A shallow embedding of [network.go].  The Go methods become programs of
    a small state monad over the object graph rooted at one controller; the
    theorems at the end of the file settle the lifecycle, rollback and
    lookup properties of the registry. *)

From stdpp Require Import base option list gmap strings fin_maps pretty.

Set Default Proof Using "Type".

(** ** Data model *)

(** [types.UUID] is a string type; identifiers are compared as strings. *)
Abbreviation UUID := string (only parsing).

(** Addresses of heap-allocated objects ([&network{...}], [&endpoint{...}],
    [*sandbox.Info]). *)
Abbreviation addr := nat (only parsing).

(** Modelled from the spec: the error values of error.go, which is not part
    of the sources at hand.  One constructor per error of the taxonomy, with
    the fields the composite literals of network.go fill in.  Errors that a
    driver produces are opaque to the registry: drivers live in packages
    that this package imports, so they cannot build the registry's own error
    types, and their errors are kept apart under [DriverError]. *)
Inductive error : Type :=
| ErrInvalidNetworkDriver
| NetworkTypeError (networkType : string)
| NetworkNameError (name : string)
| UnknownNetworkError (name : string) (id : string)
| ActiveEndpointsError (name : string) (id : string)
| UnknownEndpointError (name : string) (id : string)
| DriverError (msg : string).

(** What the registry does that an observer (a driver, a concurrent reader)
    could see, in program order: every write to one of the two tables and
    every call of a driver method. *)
Inductive event : Type :=
| NetworksStore (id : UUID) (n : addr)
| NetworksDelete (id : UUID)
| EndpointsStore (n : addr) (id : UUID) (ep : addr)
| EndpointsDelete (n : addr) (id : UUID)
| CallConfig (driverType : string)
| CallCreateNetwork (driverType : string) (nid : UUID)
| CallDeleteNetwork (driverType : string) (nid : UUID)
| CallCreateEndpoint (driverType : string) (nid eid : UUID) (sboxKey : string)
| CallDeleteEndpoint (driverType : string) (nid eid : UUID).

(** Go ranges over a map in an unspecified order.  [shuffle seed l] is the
    [seed]-th rearrangement of [l]; every range statement draws its own
    seed. *)
Fixpoint insert_at {A} (i : nat) (x : A) (l : list A) : list A :=
  match i, l with
  | O, _ => x :: l
  | S i', y :: l' => y :: insert_at i' x l'
  | S _, [] => [x]
  end.

Fixpoint shuffle {A} (seed : nat) (l : list A) : list A :=
  match l with
  | [] => []
  | x :: l' =>
      insert_at (seed mod S (length l')) x (shuffle (seed / S (length l')) l')
  end.

(** The loop of [WalkNetworks] and [WalkEndpoints] over a snapshot.  A
    walker is client code: it sees the element and may update the client's
    own variables (of type [A]), as the closures of [NetworkByName] and
    [EndpointByName] do.  The flag of the result tells whether the loop was
    left by the [return] in its body. *)
Fixpoint walk {T A} (walker : T → A → bool * A) (l : list T) (a : A) : bool * A :=
  match l with
  | [] => (false, a)
  | x :: l' =>
      let '(b, a') := walker x a in
      if b then (true, a') else walk walker l' a'
  end.

(** [run_false walker l a]: the client state after the walker has answered
    false on every element of [l] in turn, if it does. *)
Fixpoint run_false {T A} (walker : T → A → bool * A) (l : list T) (a : A) : option A :=
  match l with
  | [] => Some a
  | x :: l' =>
      let '(b, a') := walker x a in
      if b then None else run_false walker l' a'
  end.


Section Registry.

(** The private state of the drivers, the options payload ([interface{}])
    and the content of a sandbox snapshot are opaque to the registry. *)
Context {W : Type} {options : Type} {InfoData : Type}.

(** [stringid.GenerateRandomID()]: the identifier returned by the k-th call. *)
Variable GenerateRandomID : nat → string.

(** The seed of the k-th range statement over a map. *)
Variable range_seed : nat → nat.

(** Modelled from the spec: [sandbox.Info] objects (package sandbox is not
    part of the sources at hand).  The memory the drivers and the registry
    share holds the snapshots by address; the content of a snapshot is a
    value without pointers into other objects. *)
Record world : Type := mkWorld {
  driver_state : W;
  infos : gmap addr InfoData
}.

(** Modelled from the spec: the driver contract of package driverapi (not
    part of the sources at hand), the six operations of section 4.1.  A
    method acts on the drivers' world and answers [None] for a nil error.
    [CreateEndpoint] answers the pair [(sinfo, err)] of the Go signature,
    [sinfo] a possibly nil pointer. *)
Record Driver : Type := mkDriver {
  Type_ : string;
  Config : options → world → option string * world;
  CreateNetwork : UUID → options → world → option string * world;
  DeleteNetwork : UUID → world → option string * world;
  CreateEndpoint :
    UUID → UUID → string → options → world → (option addr * option string) * world;
  DeleteEndpoint : UUID → UUID → world → option string * world
}.

(** [type network struct].  The fields [name], [networkType], [id] and
    [driver] are written once, in the composite literal of [NewNetwork]; a
    [*network] is its address together with these constant fields.  The
    mutable parts, [endpoints] and the embedded mutex, live in the state
    under the address.  [ctrlr] is the one controller of the state. *)
Record network : Type := mkNetwork {
  network_addr : addr;
  network_name : string;
  network_networkType : string;
  network_id : UUID;
  network_driver : option Driver
}.

(** [type endpoint struct], likewise: all four fields are set before the
    pointer is published by [CreateEndpoint]. *)
Record endpoint : Type := mkEndpoint {
  endpoint_addr : addr;
  endpoint_name : string;
  endpoint_id : UUID;
  endpoint_network : network;
  endpoint_sandboxInfo : option addr
}.

(** [type controller struct] and what hangs off it. *)
Record state : Type := mkState {
  networks : gmap UUID network;            (* c.networks *)
  drivers : gmap string Driver;            (* c.drivers *)
  c_locked : bool;                         (* c.Mutex *)
  endpoints : gmap addr (gmap UUID endpoint); (* n.endpoints, by address of n *)
  n_locked : gset addr;                    (* the n.Mutex that are held *)
  next_addr : addr;                        (* next free address *)
  id_calls : nat;                          (* calls of GenerateRandomID so far *)
  ranges : nat;                            (* range statements run so far *)
  wld : world;                             (* drivers' state, snapshots *)
  trace : list event
}.

Definition set_networks (f : gmap UUID network → gmap UUID network) (s : state) : state :=
  mkState (f (networks s)) (drivers s) (c_locked s) (endpoints s) (n_locked s)
          (next_addr s) (id_calls s) (ranges s) (wld s) (trace s).
Definition set_c_locked (b : bool) (s : state) : state :=
  mkState (networks s) (drivers s) b (endpoints s) (n_locked s)
          (next_addr s) (id_calls s) (ranges s) (wld s) (trace s).
Definition set_endpoints
    (f : gmap addr (gmap UUID endpoint) → gmap addr (gmap UUID endpoint)) (s : state) : state :=
  mkState (networks s) (drivers s) (c_locked s) (f (endpoints s)) (n_locked s)
          (next_addr s) (id_calls s) (ranges s) (wld s) (trace s).
Definition set_n_locked (f : gset addr → gset addr) (s : state) : state :=
  mkState (networks s) (drivers s) (c_locked s) (endpoints s) (f (n_locked s))
          (next_addr s) (id_calls s) (ranges s) (wld s) (trace s).
Definition set_next_addr (a : addr) (s : state) : state :=
  mkState (networks s) (drivers s) (c_locked s) (endpoints s) (n_locked s)
          a (id_calls s) (ranges s) (wld s) (trace s).
Definition set_id_calls (k : nat) (s : state) : state :=
  mkState (networks s) (drivers s) (c_locked s) (endpoints s) (n_locked s)
          (next_addr s) k (ranges s) (wld s) (trace s).
Definition set_ranges (k : nat) (s : state) : state :=
  mkState (networks s) (drivers s) (c_locked s) (endpoints s) (n_locked s)
          (next_addr s) (id_calls s) k (wld s) (trace s).
Definition set_wld (w : world) (s : state) : state :=
  mkState (networks s) (drivers s) (c_locked s) (endpoints s) (n_locked s)
          (next_addr s) (id_calls s) (ranges s) w (trace s).
Definition log (e : event) (s : state) : state :=
  mkState (networks s) (drivers s) (c_locked s) (endpoints s) (n_locked s)
          (next_addr s) (id_calls s) (ranges s) (wld s) (trace s ++ [e]).

(** The endpoint table of a network: [n.endpoints]. *)
Definition endpoints_of (n : network) (s : state) : gmap UUID endpoint :=
  default ∅ (endpoints s !! network_addr n).

(** ** The monad of the methods

    A method runs on the state and either returns, with a value and the
    state it leaves, or does not return: it blocks on a mutex that is held,
    or the runtime stops the program (unlock of an unlocked mutex, call
    through a nil interface). *)
Definition M (A : Type) : Type := state → option (A * state).

#[global] Instance M_ret : MRet M := λ A a s, Some (a, s).
#[global] Instance M_bind : MBind M := λ A B f m s,
  match m s with
  | Some (a, s') => f a s'
  | None => None
  end.

Definition get : M state := λ s, Some (s, s).
Definition modify (f : state → state) : M unit := λ s, Some (tt, f s).
Definition stop {A} : M A := λ _, None.

(** [c.Lock()] and [c.Unlock()]. *)
Definition c_Lock : M unit :=
  s ← get; if c_locked s then stop else modify (set_c_locked true).
Definition c_Unlock : M unit :=
  s ← get; if c_locked s then modify (set_c_locked false) else stop.

(** [n.Lock()] and [n.Unlock()]. *)
Definition n_Lock (n : network) : M unit :=
  s ← get;
  if decide (network_addr n ∈ n_locked s) then stop
  else modify (set_n_locked (union {[network_addr n]})).
Definition n_Unlock (n : network) : M unit :=
  s ← get;
  if decide (network_addr n ∈ n_locked s)
  then modify (set_n_locked (λ l, l ∖ {[network_addr n]}))
  else stop.

(** [stringid.GenerateRandomID()]. *)
Definition GenerateRandomID_call : M string :=
  s ← get; modify (set_id_calls (S (id_calls s)));; mret (GenerateRandomID (id_calls s)).

(** Allocation of an object. *)
Definition alloc : M addr :=
  s ← get; modify (set_next_addr (S (next_addr s)));; mret (next_addr s).

(** The values of a map in the order one range statement visits them. *)
Definition range {V} (m : gmap UUID V) : M (list V) :=
  s ← get;
  modify (set_ranges (S (ranges s)));;
  mret (shuffle (range_seed (ranges s)) (map_to_list m).*2).

(** Table writes. *)
Definition networks_store (id : UUID) (n : network) : M unit :=
  modify (λ s, log (NetworksStore id (network_addr n)) (set_networks <[id := n]> s)).
Definition networks_delete (id : UUID) : M unit :=
  modify (λ s, log (NetworksDelete id) (set_networks (delete id) s)).
Definition endpoints_store (n : network) (id : UUID) (ep : endpoint) : M unit :=
  modify (λ s, log (EndpointsStore (network_addr n) id (endpoint_addr ep))
                 (set_endpoints <[network_addr n := <[id := ep]> (endpoints_of n s)]> s)).
Definition endpoints_delete (n : network) (id : UUID) : M unit :=
  modify (λ s, log (EndpointsDelete (network_addr n) id)
                 (set_endpoints <[network_addr n := delete id (endpoints_of n s)]> s)).

(** A call of a driver method: it runs on the world and is logged. *)
Definition call {R} (e : event) (f : world → R * world) : M R :=
  s ← get;
  let '(r, w) := f (wld s) in
  modify (λ s, set_wld w (log e s));; mret r.

(** A call through the interface value [n.driver]; nil stops the program. *)
Definition the_driver (n : network) : M Driver :=
  match network_driver n with
  | Some d => mret d
  | None => stop
  end.

(** ** Controller *)

(** [New()], with the table that [enumerateDrivers()] returns. *)
Definition New (enumerateDrivers : gmap string Driver) (w : world) : state :=
  mkState ∅ enumerateDrivers false ∅ ∅ 0 0 0 w [].

(** [ConfigureNetworkDriver]. *)
Definition ConfigureNetworkDriver (networkType : string) (opts : options) : M (option error) :=
  c ← get;
  match drivers c !! networkType with
  | None => mret (Some (NetworkTypeError networkType))
  | Some d =>
      err ← call (CallConfig (Type_ d)) (Config d opts);
      mret (DriverError <$> err)
  end.

(** The loop of [NewNetwork] over [c.networks]: is some [n.name == name]? *)
Fixpoint name_in_use (name : string) (l : list network) : bool :=
  match l with
  | [] => false
  | n :: l' => if String.eqb (network_name n) name then true else name_in_use name l'
  end.

(** [NewNetwork]. *)
Definition NewNetwork (networkType name : string) (opts : options)
    : M (option network * option error) :=
  c ← get;
  match drivers c !! networkType with
  | None => mret (None, Some ErrInvalidNetworkDriver)
  | Some d =>
      c_Lock;;
      c ← get;
      ns ← range (networks c);
      if name_in_use name ns then
        c_Unlock;;
        mret (None, Some (NetworkNameError name))
      else
        c_Unlock;;
        id ← GenerateRandomID_call;
        a ← alloc;
        let network := mkNetwork a name "" id (Some d) in
        modify (set_endpoints <[a := ∅]>);;
        err ← call (CallCreateNetwork (Type_ d) id) (CreateNetwork d id opts);
        match err with
        | Some e => mret (None, Some (DriverError e))
        | None =>
            c_Lock;;
            networks_store id network;;
            c_Unlock;;
            mret (Some network, None)
        end
  end.

(** [Networks]. *)
Definition Networks : M (list network) :=
  c_Lock;;
  c ← get;
  list ← range (networks c);
  c_Unlock;;
  mret list.

(** [NetworkByID]. *)
Definition NetworkByID (id : string) : M (option network) :=
  c_Lock;;
  c ← get;
  let r := networks c !! id in
  c_Unlock;;
  mret r.

(** [WalkNetworks]. *)
Definition WalkNetworks {A} (walker : network → A → bool * A) (a : A) : M (bool * A) :=
  list ← Networks;
  mret (walk walker list a).

(** [NetworkByName]; the client variable of the closure [s] is [n]. *)
Definition NetworkByName (name : string) : M (option network) :=
  let n : option network := None in
  if decide (name ≠ "") then
    let s (current : network) (n : option network) :=
      if String.eqb (network_name current) name then (true, Some current)
      else (false, n) in
    '(_, n) ← WalkNetworks s n;
    mret n
  else mret n.

(** ** Network *)

Definition Name (n : network) : string := network_name n.

Definition ID (n : network) : string := network_id n.

Definition Type' (n : network) : string :=
  match network_driver n with
  | None => ""
  | Some d => Type_ d
  end.

(** [Delete] of [*network].  The deferred function runs when the driver call
    has returned; a call through a nil [n.driver] does not return. *)
Definition network_Delete (n : network) : M (option error) :=
  c_Lock;;
  c ← get;
  match networks c !! network_id n with
  | None =>
      c_Unlock;;
      mret (Some (UnknownNetworkError (network_name n) (network_id n)))
  | Some _ =>
      n_Lock n;;
      s ← get;
      let numEps := size (endpoints_of n s) in
      n_Unlock n;;
      if decide (numEps ≠ 0) then
        c_Unlock;;
        mret (Some (ActiveEndpointsError (network_name n) (network_id n)))
      else
        networks_delete (network_id n);;
        c_Unlock;;
        d ← the_driver n;
        err ← call (CallDeleteNetwork (Type_ d) (network_id n))
                   (DeleteNetwork d (network_id n));
        match err with
        | Some e =>
            c_Lock;;
            networks_store (network_id n) n;;
            c_Unlock;;
            mret (Some (DriverError e))
        | None => mret None
        end
  end.

(** [CreateEndpoint] of [*network]. *)
Definition network_CreateEndpoint (n : network) (name sboxKey : string) (opts : options)
    : M (option endpoint * option error) :=
  a ← alloc;
  id ← GenerateRandomID_call;
  d ← the_driver n;
  '(sinfo, err) ← call (CallCreateEndpoint (Type_ d) (network_id n) id sboxKey)
                       (CreateEndpoint d (network_id n) id sboxKey opts);
  match err with
  | Some e => mret (None, Some (DriverError e))
  | None =>
      let ep := mkEndpoint a name id n sinfo in
      n_Lock n;;
      endpoints_store n id ep;;
      n_Unlock n;;
      mret (Some ep, None)
  end.

(** [Endpoints] of [*network]. *)
Definition Endpoints (n : network) : M (list endpoint) :=
  n_Lock n;;
  s ← get;
  list ← range (endpoints_of n s);
  n_Unlock n;;
  mret list.

(** [WalkEndpoints] of [*network]: the method has no result. *)
Definition WalkEndpoints {A} (n : network) (walker : endpoint → A → bool * A) (a : A)
    : M (unit * A) :=
  list ← Endpoints n;
  mret (tt, (walk walker list a).2).

(** [EndpointByName] of [*network]. *)
Definition EndpointByName (n : network) (name : string) : M (option endpoint) :=
  let e : option endpoint := None in
  if decide (name ≠ "") then
    let s (current : endpoint) (e : option endpoint) :=
      if String.eqb (endpoint_name current) name then (true, Some current)
      else (false, e) in
    '(_, e) ← WalkEndpoints n s e;
    mret e
  else mret e.

(** [EndpointByID] of [*network]. *)
Definition EndpointByID (n : network) (id : string) : M (option endpoint) :=
  n_Lock n;;
  s ← get;
  let r := endpoints_of n s !! id in
  n_Unlock n;;
  mret r.

(** ** Endpoint *)

Definition endpoint_ID (ep : endpoint) : string := endpoint_id ep.

Definition endpoint_Name (ep : endpoint) : string := endpoint_name ep.


(** Modelled from the spec: [GetCopy] of [*sandbox.Info], of package sandbox,
    which is not part of the sources at hand — the deep-copy operation of
    the sandbox info provider.  The copy is a new object with the content of
    the receiver. *)
Definition GetCopy (p : addr) : M addr :=
  s ← get;
  match infos (wld s) !! p with
  | None => stop
  | Some v =>
      let q := fresh (dom (infos (wld s))) in
      modify (set_wld (mkWorld (driver_state (wld s)) (<[q := v]> (infos (wld s)))));;
      mret q
  end.

(** [SandboxInfo] of [*endpoint]. *)
Definition SandboxInfo (ep : endpoint) : M (option addr) :=
  match endpoint_sandboxInfo ep with
  | None => mret None
  | Some p => q ← GetCopy p; mret (Some q)
  end.

(** [Delete] of [*endpoint]. *)
Definition endpoint_Delete (ep : endpoint) : M (option error) :=
  let n := endpoint_network ep in
  n_Lock n;;
  s ← get;
  match endpoints_of n s !! endpoint_id ep with
  | None =>
      n_Unlock n;;
      mret (Some (UnknownEndpointError (endpoint_name ep) (endpoint_id ep)))
  | Some _ =>
      endpoints_delete n (endpoint_id ep);;
      n_Unlock n;;
      d ← the_driver n;
      err ← call (CallDeleteEndpoint (Type_ d) (network_id n) (endpoint_id ep))
                 (DeleteEndpoint d (network_id n) (endpoint_id ep));
      match err with
      | Some e =>
          n_Lock n;;
          endpoints_store n (endpoint_id ep) ep;;
          n_Unlock n;;
          mret (Some (DriverError e))
      | None => mret None
      end
  end.

(** ** Sequences of calls *)




(** A call of one of the four methods that write to the tables. *)
Inductive api_call : Type :=
| DoNewNetwork (networkType name : string) (opts : options)
| DoDelete (n : network)
| DoCreateEndpoint (n : network) (name sboxKey : string) (opts : options)
| DoEndpointDelete (ep : endpoint).

Definition exec (c : api_call) : M unit :=
  match c with
  | DoNewNetwork networkType name opts => NewNetwork networkType name opts;; mret tt
  | DoDelete n => network_Delete n;; mret tt
  | DoCreateEndpoint n name sboxKey opts => network_CreateEndpoint n name sboxKey opts;; mret tt
  | DoEndpointDelete ep => endpoint_Delete ep;; mret tt
  end.

Fixpoint exec_all (cs : list api_call) : M unit :=
  match cs with
  | [] => mret tt
  | c :: cs' => exec c;; exec_all cs'
  end.

(** ** Predicates on states *)

(** No mutex is held: the state between two calls of a sequential client. *)
Definition quiescent (s : state) : Prop :=
  c_locked s = false ∧ n_locked s = ∅.

(** No two networks of the registry share a name. *)
Definition unique_names (t : gmap UUID network) : Prop :=
  ∀ i j n1 n2,
    t !! i = Some n1 → t !! j = Some n2 →
    network_name n1 = network_name n2 → i = j.


(** Every endpoint of a table sits under its own identifier. *)
Definition keyed_by_id (t : gmap UUID endpoint) : Prop :=
  ∀ i e, t !! i = Some e → endpoint_id e = i.

(** Every endpoint of the table of the network at address [a] sits under its
    own identifier and has that network for its [network]. *)
Definition table_wf (a : addr) (t : gmap UUID endpoint) : Prop :=
  ∀ i e, t !! i = Some e → endpoint_id e = i ∧ network_addr (endpoint_network e) = a.

(** Every network sits under its own identifier, and every endpoint table is
    well formed. *)
Definition tables_wf (s : state) : Prop :=
  (∀ i n, networks s !! i = Some n → network_id n = i) ∧
  (∀ a t, endpoints s !! a = Some t → table_wf a t).

(** Every identifier in use, of a network of the registry or of an endpoint
    of a table, was returned by one of the calls of the generator so far. *)
Definition ids_generated (s : state) : Prop :=
  (∀ i, is_Some (networks s !! i) → ∃ k, k < id_calls s ∧ i = GenerateRandomID k) ∧
  (∀ a t i, endpoints s !! a = Some t → is_Some (t !! i) →
     ∃ k, k < id_calls s ∧ i = GenerateRandomID k).

End Registry.

Arguments world : clear implicits.
Arguments Driver : clear implicits.
Arguments network : clear implicits.
Arguments endpoint : clear implicits.
Arguments state : clear implicits.
Arguments M : clear implicits.
Arguments api_call : clear implicits.

(** ** A concrete setting

    Three drivers with scripted answers, a generator that counts, and the
    states of a small session; the examples below are run on them. *)

Definition ex_world : world unit string := mkWorld tt ∅.

(** A driver that fails where it is told to; its [CreateEndpoint] allocates
    a snapshot that holds the sandbox key. *)
Definition ex_driver (type : string) (failCreate failDelete : bool)
    : Driver unit unit string :=
  mkDriver type
    (λ _ w, (None, w))
    (λ _ _ w, (if failCreate then Some "create failed" else None, w))
    (λ _ w, (if failDelete then Some "device busy" else None, w))
    (λ _ _ sboxKey _ w,
       let q := fresh (dom (infos w)) in
       ((Some q, None), mkWorld (driver_state w) (<[q := sboxKey]> (infos w))))
    (λ _ _ w, (if failDelete then Some "device busy" else None, w)).

Definition ex_bridge := ex_driver "bridge" false false.
Definition ex_stuck := ex_driver "stuck" false true.
Definition ex_broken := ex_driver "broken" true false.

Definition ex_drivers : gmap string (Driver unit unit string) :=
  <["bridge" := ex_bridge]> (<["stuck" := ex_stuck]> (<["broken" := ex_broken]> ∅)).

Definition ex_gen (k : nat) : string := pretty k.
Definition ex_seed (k : nat) : nat := k.

(** The state a program leaves, and the value it returns. *)
Definition state_after {W options InfoData A}
    (m : M W options InfoData A) (s : state W options InfoData) : state W options InfoData :=
  match m s with
  | Some (_, s') => s'
  | None => s
  end.
Definition result_of {W options InfoData A}
    (m : M W options InfoData A) (s : state W options InfoData) : option A :=
  fst <$> m s.

(** [New()]; [NewNetwork("bridge", "net1", nil)]; [CreateEndpoint("ep1",
    "/ns/path", nil)] on the network. *)
Definition ex_init : state unit unit string := New ex_drivers ex_world.
Definition ex_net1 : network unit unit string := mkNetwork 0 "net1" "" "0" (Some ex_bridge).
Definition ex_s1 := state_after (NewNetwork ex_gen ex_seed "bridge" "net1" tt) ex_init.
Definition ex_ep1 : endpoint unit unit string := mkEndpoint 1 "ep1" "1" ex_net1 (Some 0).
Definition ex_s2 := state_after (network_CreateEndpoint ex_gen ex_net1 "ep1" "/ns/path" tt) ex_s1.

(** A network of the driver whose deletions fail, with one endpoint. *)
Definition ex_net2 : network unit unit string := mkNetwork 0 "net2" "" "0" (Some ex_stuck).
Definition ex_t1 := state_after (NewNetwork ex_gen ex_seed "stuck" "net2" tt) ex_init.
Definition ex_ep2 : endpoint unit unit string := mkEndpoint 1 "ep2" "1" ex_net2 (Some 0).
Definition ex_t2 := state_after (network_CreateEndpoint ex_gen ex_net2 "ep2" "/ns/path" tt) ex_t1.

(** [net1] deleted, then an endpoint created through the stale handle. *)
Definition ex_s3 := state_after (network_Delete ex_net1) ex_s1.

(** * Properties *)

(** ** The range order *)

Lemma insert_at_Permutation {A} (i : nat) (x : A) (l : list A) :
  insert_at i x l ≡ₚ x :: l.
Proof.
  revert i. induction l as [|y l IH]; intros [|i]; simpl; try done.
  rewrite IH. apply Permutation_swap.
Qed.

Lemma shuffle_Permutation {A} (seed : nat) (l : list A) : shuffle seed l ≡ₚ l.
Proof.
  revert seed. induction l as [|x l IH]; intros seed; simpl; [done|].
  by rewrite insert_at_Permutation, IH.
Qed.

Lemma elem_of_shuffle {A} (seed : nat) (l : list A) (x : A) :
  x ∈ shuffle seed l ↔ x ∈ l.
Proof. by rewrite shuffle_Permutation. Qed.

Lemma insert_at_app {A} (x : A) (l1 l2 : list A) :
  insert_at (length l1) x (l1 ++ l2) = l1 ++ x :: l2.
Proof.
  induction l1 as [|y l1 IH]; simpl.
  - by destruct l2.
  - by rewrite IH.
Qed.

(** Every order of the elements is the order of some seed: the model leaves
    the order of a range statement open. *)
Lemma shuffle_any_order {A} (l l' : list A) :
  l' ≡ₚ l → ∃ seed, shuffle seed l = l'.
Proof.
  revert l'. induction l as [|x l IH]; intros l' Hp.
  - apply Permutation_nil_r in Hp as ->. by exists 0.
  - assert (Hx : x ∈ l') by (rewrite Hp; left).
    apply list_elem_of_split in Hx as (l1 & l2 & ->).
    symmetry in Hp. apply Permutation_cons_app_inv in Hp.
    destruct (IH (l1 ++ l2)) as [seed Hseed]; [done|].
    assert (Hlen : length l1 < S (length l)).
    { apply Permutation_length in Hp. rewrite Hp, length_app. lia. }
    exists (length l1 + seed * S (length l)). cbn [shuffle].
    rewrite Nat.Div0.mod_add, Nat.mod_small by done.
    rewrite Nat.div_add, Nat.div_small by lia.
    by rewrite Nat.add_0_l, Hseed, insert_at_app.
Qed.

(** ** The loops *)

Lemma name_in_use_true {W options InfoData} (name : string)
    (l : list (network W options InfoData)) :
  name_in_use name l = true ↔ ∃ n, n ∈ l ∧ network_name n = name.
Proof.
  induction l as [|n l IH]; simpl.
  - split; [done|]. intros (n & Hn & _). by apply elem_of_nil in Hn.
  - destruct (String.eqb_spec (network_name n) name) as [Heq|Hne].
    + split; [|done]. intros _. exists n. split; [left|done].
    + rewrite IH. split.
      * intros (n' & Hn' & Hnm). exists n'. split; [by right|done].
      * intros (n' & Hn' & Hnm). apply elem_of_cons in Hn' as [->|Hn']; [done|].
        by exists n'.
Qed.

Lemma name_in_use_false {W options InfoData} (name : string)
    (l : list (network W options InfoData)) :
  name_in_use name l = false ↔ ∀ n, n ∈ l → network_name n ≠ name.
Proof.
  rewrite <- not_true_iff_false, name_in_use_true. split.
  - intros Hno n Hn Hnm. apply Hno. by exists n.
  - intros Hall (n & Hn & Hnm). by apply (Hall n).
Qed.



(** Which of the two ways a walk ends. *)
Lemma walk_cases {T A} (walker : T → A → bool * A) l a :
  (∃ l1 x l2 a1 a2, l = l1 ++ x :: l2 ∧ run_false walker l1 a = Some a1 ∧
                    walker x a1 = (true, a2) ∧ walk walker l a = (true, a2)) ∨
  (∃ a', run_false walker l a = Some a' ∧ walk walker l a = (false, a')).
Proof.
  revert a. induction l as [|y l IH]; intros a; simpl.
  - right. by exists a.
  - destruct (walker y a) as [[] a1] eqn:Hy.
    + left. exists [], y, l, a, a1. by rewrite Hy.
    + destruct (IH a1) as [(l1 & x & l2 & b1 & b2 & -> & Hrun & Hx & Hw)|(a' & Hrun & Hw)].
      * left. exists (y :: l1), x, l2, b1, b2. simpl. by rewrite Hy.
      * right. by exists a'.
Qed.




(** ** What each method does on a quiescent state *)

Lemma relock (a : nat) : (({[a]} ∪ ∅) ∖ {[a]} : gset nat) = ∅.
Proof.
  apply set_eq. intros x.
  rewrite elem_of_difference, elem_of_union, elem_of_singleton.
  split; [intros [[?|?] ?]; done | intros H; by apply elem_of_empty in H].
Qed.

Lemma held_after_lock (a : nat) : a ∈ ({[a]} ∪ ∅ : gset nat).
Proof. apply elem_of_union_l. by apply elem_of_singleton. Qed.

Lemma free_when_quiescent (a : nat) : a ∉ (∅ : gset nat).
Proof. apply not_elem_of_empty. Qed.

Section Runs.

Context {W options InfoData : Type}.
Variable GenerateRandomID : nat → string.
Variable range_seed : nat → nat.

Local Abbreviation state := (state W options InfoData).
Local Abbreviation network := (network W options InfoData).
Local Abbreviation endpoint := (endpoint W options InfoData).
Local Abbreviation Driver := (Driver W options InfoData).
Local Abbreviation M := (M W options InfoData).

(** Symbolic execution of a method: the monad and the record updates are
    evaluated by value; the tests that stay (a lock, a lookup, the answer of
    a driver) are then rewritten with what is known of the state. *)
Ltac run_M :=
  cbv beta iota zeta delta
    [mbind mret M_bind M_ret get modify stop
     c_Lock c_Unlock n_Lock n_Unlock networks_store networks_delete
     endpoints_store endpoints_delete call the_driver alloc range
     GenerateRandomID_call endpoints_of
     set_c_locked set_n_locked set_networks set_endpoints set_next_addr
     set_id_calls set_ranges set_wld log
     networks drivers c_locked endpoints n_locked next_addr id_calls ranges wld trace].

Ltac locks :=
  repeat (first
    [ rewrite decide_True by apply held_after_lock
    | rewrite decide_False by apply free_when_quiescent
    | rewrite relock ]; run_M).

Tactic Notation "run" "with" tactic3(tac) :=
  run_M; locks; repeat (progress tac; run_M; locks).

Ltac enter s Q :=
  let Hc := fresh in
  let Hn := fresh in
  destruct Q as [Hc Hn];
  destruct s as [nets drvs cl eps nl na ic rg w tr];
  unfold endpoints_of in *; simpl in *; subst cl nl.

Lemma NetworkByID_run (id : string) (s : state) :
  quiescent s → NetworkByID id s = Some (networks s !! id, s).
Proof.
  intros Q. enter s Q. unfold NetworkByID. by run with idtac.
Qed.

Lemma Networks_run (s : state) :
  quiescent s →
  Networks range_seed s =
    Some (shuffle (range_seed (ranges s)) (map_to_list (networks s)).*2,
          set_ranges (S (ranges s)) s).
Proof.
  intros Q. enter s Q. unfold Networks. by run with idtac.
Qed.

Lemma Endpoints_run (n : network) (s : state) :
  quiescent s →
  Endpoints range_seed n s =
    Some (shuffle (range_seed (ranges s)) (map_to_list (endpoints_of n s)).*2,
          set_ranges (S (ranges s)) s).
Proof.
  intros Q. enter s Q. unfold Endpoints. by run with idtac.
Qed.

Lemma NewNetwork_no_driver networkType name opts (s : state) :
  drivers s !! networkType = None →
  NewNetwork GenerateRandomID range_seed networkType name opts s =
    Some ((None, Some ErrInvalidNetworkDriver), s).
Proof.
  intros Hd. destruct s as [nets drvs cl eps nl na ic rg w tr]; simpl in Hd.
  unfold NewNetwork. run_M. by rewrite Hd.
Qed.

Lemma NewNetwork_name_taken networkType name opts (s : state) d :
  quiescent s →
  drivers s !! networkType = Some d →
  name_in_use name (shuffle (range_seed (ranges s)) (map_to_list (networks s)).*2) = true →
  NewNetwork GenerateRandomID range_seed networkType name opts s =
    Some ((None, Some (NetworkNameError name)), set_ranges (S (ranges s)) s).
Proof.
  intros Q Hd Hin. enter s Q. unfold NewNetwork.
  by run with (first [rewrite Hd | rewrite Hin]).
Qed.

Lemma NewNetwork_driver networkType name opts (s : state) d r w' :
  quiescent s →
  drivers s !! networkType = Some d →
  name_in_use name (shuffle (range_seed (ranges s)) (map_to_list (networks s)).*2) = false →
  CreateNetwork d (GenerateRandomID (id_calls s)) opts (wld s) = (r, w') →
  let id := GenerateRandomID (id_calls s) in
  let n := mkNetwork (next_addr s) name "" id (Some d) in
  NewNetwork GenerateRandomID range_seed networkType name opts s =
    Some (match r with
          | Some e => (None, Some (DriverError e))
          | None => (Some n, None)
          end,
          mkState (match r with
                   | Some _ => networks s
                   | None => <[id := n]> (networks s)
                   end)
                  (drivers s) false (<[next_addr s := ∅]> (endpoints s)) ∅
                  (S (next_addr s)) (S (id_calls s)) (S (ranges s)) w'
                  (trace s ++ CallCreateNetwork (Type_ d) id ::
                     match r with
                     | Some _ => []
                     | None => [NetworksStore id (next_addr s)]
                     end)).
Proof.
  intros Q Hd Hin Hr. enter s Q. unfold NewNetwork.
  run with (first [rewrite Hd | rewrite Hin | rewrite Hr]).
  destruct r; run with idtac; by rewrite <- ?app_assoc.
Qed.

Lemma network_Delete_unknown (n : network) (s : state) :
  quiescent s → networks s !! network_id n = None →
  network_Delete n s =
    Some (Some (UnknownNetworkError (network_name n) (network_id n)), s).
Proof.
  intros Q Hl. enter s Q. unfold network_Delete. by run with (rewrite Hl).
Qed.

Lemma network_Delete_active (n : network) (s : state) :
  quiescent s → is_Some (networks s !! network_id n) → endpoints_of n s ≠ ∅ →
  network_Delete n s =
    Some (Some (ActiveEndpointsError (network_name n) (network_id n)), s).
Proof.
  intros Q [x Hl] He. enter s Q. unfold network_Delete.
  by run with (first [rewrite Hl | rewrite decide_True by (by apply map_size_non_empty_iff)]).
Qed.

Lemma network_Delete_driver (n : network) (s : state) d r w' :
  quiescent s → is_Some (networks s !! network_id n) → endpoints_of n s = ∅ →
  network_driver n = Some d →
  DeleteNetwork d (network_id n) (wld s) = (r, w') →
  network_Delete n s =
    Some (DriverError <$> r,
          mkState (match r with
                   | Some _ => <[network_id n := n]> (delete (network_id n) (networks s))
                   | None => delete (network_id n) (networks s)
                   end)
                  (drivers s) false (endpoints s) ∅
                  (next_addr s) (id_calls s) (ranges s) w'
                  (trace s ++ NetworksDelete (network_id n) ::
                     CallDeleteNetwork (Type_ d) (network_id n) ::
                     match r with
                     | Some _ => [NetworksStore (network_id n) (network_addr n)]
                     | None => []
                     end)).
Proof.
  intros Q [x Hl] He Hd Hr. enter s Q. unfold network_Delete.
  run with (first [rewrite Hl | rewrite Hd | rewrite Hr
                  | rewrite decide_False by (rewrite He, map_size_empty; lia)]).
  destruct r; run with idtac; by rewrite <- ?app_assoc.
Qed.

Lemma network_Delete_nil_driver (n : network) (s : state) :
  quiescent s → is_Some (networks s !! network_id n) → endpoints_of n s = ∅ →
  network_driver n = None →
  network_Delete n s = None.
Proof.
  intros Q [x Hl] He Hd. enter s Q. unfold network_Delete.
  by run with (first [rewrite Hl | rewrite Hd
                     | rewrite decide_False by (rewrite He, map_size_empty; lia)]).
Qed.

Lemma network_CreateEndpoint_driver (n : network) name sboxKey opts (s : state) d sinfo r w' :
  quiescent s →
  network_driver n = Some d →
  CreateEndpoint d (network_id n) (GenerateRandomID (id_calls s)) sboxKey opts (wld s)
    = ((sinfo, r), w') →
  let id := GenerateRandomID (id_calls s) in
  let ep := mkEndpoint (next_addr s) name id n sinfo in
  network_CreateEndpoint GenerateRandomID n name sboxKey opts s =
    Some (match r with
          | Some e => (None, Some (DriverError e))
          | None => (Some ep, None)
          end,
          mkState (networks s) (drivers s) false
                  (match r with
                   | Some _ => endpoints s
                   | None => <[network_addr n := <[id := ep]> (endpoints_of n s)]> (endpoints s)
                   end)
                  ∅ (S (next_addr s)) (S (id_calls s)) (ranges s) w'
                  (trace s ++ CallCreateEndpoint (Type_ d) (network_id n) id sboxKey ::
                     match r with
                     | Some _ => []
                     | None => [EndpointsStore (network_addr n) id (next_addr s)]
                     end)).
Proof.
  intros Q Hd Hr. enter s Q. unfold network_CreateEndpoint.
  run with (first [rewrite Hd | rewrite Hr]).
  destruct r; run with idtac; by rewrite <- ?app_assoc.
Qed.

Lemma endpoint_Delete_unknown (ep : endpoint) (s : state) :
  quiescent s →
  endpoints_of (endpoint_network ep) s !! endpoint_id ep = None →
  endpoint_Delete ep s =
    Some (Some (UnknownEndpointError (endpoint_name ep) (endpoint_id ep)), s).
Proof.
  intros Q Hl. enter s Q. unfold endpoint_Delete. by run with (rewrite Hl).
Qed.

Lemma endpoint_Delete_driver (ep : endpoint) (s : state) d r w' :
  let n := endpoint_network ep in
  quiescent s →
  is_Some (endpoints_of n s !! endpoint_id ep) →
  network_driver n = Some d →
  DeleteEndpoint d (network_id n) (endpoint_id ep) (wld s) = (r, w') →
  endpoint_Delete ep s =
    Some (DriverError <$> r,
          mkState (networks s) (drivers s) false
                  (match r with
                   | Some _ =>
                       <[network_addr n :=
                           <[endpoint_id ep := ep]> (delete (endpoint_id ep) (endpoints_of n s))]>
                         (<[network_addr n := delete (endpoint_id ep) (endpoints_of n s)]>
                            (endpoints s))
                   | None =>
                       <[network_addr n := delete (endpoint_id ep) (endpoints_of n s)]>
                         (endpoints s)
                   end)
                  ∅ (next_addr s) (id_calls s) (ranges s) w'
                  (trace s ++ EndpointsDelete (network_addr n) (endpoint_id ep) ::
                     CallDeleteEndpoint (Type_ d) (network_id n) (endpoint_id ep) ::
                     match r with
                     | Some _ =>
                         [EndpointsStore (network_addr n) (endpoint_id ep) (endpoint_addr ep)]
                     | None => []
                     end)).
Proof.
  intros n Q [x Hl] Hd Hr. subst n. enter s Q. unfold endpoint_Delete.
  run with (first [rewrite Hl | rewrite Hd | rewrite Hr]).
  destruct r; run with (rewrite lookup_insert_eq; simpl); by rewrite <- ?app_assoc.
Qed.

(** *** What a call that returns has done to the tables *)

Lemma insert_delete_insert {K V} `{Countable K} (a : K) (i : UUID) (x : V)
    (t : gmap UUID V) (m : gmap K (gmap UUID V)) :
  <[a := <[i := x]> (delete i t)]> (<[a := delete i t]> m) = <[a := <[i := x]> t]> m.
Proof. by rewrite insert_insert_eq, insert_delete_eq. Qed.

Lemma NewNetwork_returns networkType name opts (s : state) :
  quiescent s →
  ∃ r s',
    NewNetwork GenerateRandomID range_seed networkType name opts s = Some (r, s') ∧
    quiescent s' ∧
    (endpoints s' = endpoints s ∨ endpoints s' = <[next_addr s := ∅]> (endpoints s)) ∧
    (networks s' = networks s ∨
     ∃ n, r = (Some n, None) ∧
          network_name n = name ∧
          network_id n = GenerateRandomID (id_calls s) ∧
          (∀ i m, networks s !! i = Some m → network_name m ≠ name) ∧
          networks s' = <[network_id n := n]> (networks s)).
Proof.
  intros Q.
  destruct (drivers s !! networkType) as [d|] eqn:Hd.
  2: { rewrite NewNetwork_no_driver by done. exists (None, Some ErrInvalidNetworkDriver), s.
       repeat split; try apply Q; by left. }
  destruct (name_in_use name
              (shuffle (range_seed (ranges s)) (map_to_list (networks s)).*2)) eqn:Hin.
  { rewrite (NewNetwork_name_taken _ _ _ _ d) by done. do 2 eexists. split; [done|].
    repeat split; try apply Q; by left. }
  destruct (CreateNetwork d (GenerateRandomID (id_calls s)) opts (wld s)) as [r w'] eqn:Hr.
  rewrite (NewNetwork_driver _ _ _ _ d r w') by done.
  do 2 eexists. split; [done|]. simpl. repeat split; [by right|].
  destruct r as [msg|]; [by left|]. right. eexists. repeat split.
  intros i m Hm. rewrite name_in_use_false in Hin. apply Hin.
  apply elem_of_shuffle, list_elem_of_fmap. exists (i, m). split; [done|].
  by apply elem_of_map_to_list.
Qed.

Lemma network_Delete_returns (n : network) (s s' : state) r :
  quiescent s →
  network_Delete n s = Some (r, s') →
  quiescent s' ∧
  endpoints s' = endpoints s ∧
  (networks s' = networks s ∨
   networks s' = delete (network_id n) (networks s) ∨
   networks s' = <[network_id n := n]> (networks s)).
Proof.
  intros Q Hrun.
  destruct (networks s !! network_id n) as [x|] eqn:Hl.
  2: { rewrite network_Delete_unknown in Hrun by done.
       injection Hrun as <- <-. repeat split; try apply Q; by left. }
  destruct (decide (size (endpoints_of n s) = 0)) as [Hz|Hnz].
  2: { apply map_size_non_empty_iff in Hnz.
       rewrite network_Delete_active in Hrun by eauto.
       injection Hrun as <- <-. repeat split; try apply Q; by left. }
  apply map_size_empty_iff in Hz.
  destruct (network_driver n) as [d|] eqn:Hd.
  2: { rewrite network_Delete_nil_driver in Hrun by eauto. done. }
  destruct (DeleteNetwork d (network_id n) (wld s)) as [r' w'] eqn:Hr.
  rewrite (network_Delete_driver n s d r' w') in Hrun by eauto.
  injection Hrun as <- <-. simpl. repeat split.
  destruct r'; right; [right|left]; [|done]. by rewrite insert_delete_eq.
Qed.

Lemma network_CreateEndpoint_returns (n : network) name sboxKey opts (s : state) :
  quiescent s →
  is_Some (network_driver n) →
  ∃ r s',
    network_CreateEndpoint GenerateRandomID n name sboxKey opts s = Some (r, s') ∧
    quiescent s' ∧
    networks s' = networks s ∧
    (endpoints s' = endpoints s ∨
     ∃ ep, r = (Some ep, None) ∧
           endpoint_id ep = GenerateRandomID (id_calls s) ∧
           endpoint_network ep = n ∧
           endpoints s' =
             <[network_addr n := <[endpoint_id ep := ep]> (endpoints_of n s)]> (endpoints s)).
Proof.
  intros Q [d Hd].
  destruct (CreateEndpoint d (network_id n) (GenerateRandomID (id_calls s)) sboxKey opts (wld s))
    as [[sinfo r] w'] eqn:Hr.
  rewrite (network_CreateEndpoint_driver n name sboxKey opts s d sinfo r w') by done.
  do 2 eexists. split; [done|]. simpl. repeat split.
  destruct r as [msg|]; [by left|]. right. by eexists.
Qed.

Lemma endpoint_Delete_returns (ep : endpoint) (s s' : state) r :
  let n := endpoint_network ep in
  quiescent s →
  endpoint_Delete ep s = Some (r, s') →
  quiescent s' ∧
  networks s' = networks s ∧
  (endpoints s' = endpoints s ∧ is_Some r ∨
   endpoints s' =
     <[network_addr n := delete (endpoint_id ep) (endpoints_of n s)]> (endpoints s) ∧ r = None ∨
   endpoints s' =
     <[network_addr n := <[endpoint_id ep := ep]> (endpoints_of n s)]> (endpoints s) ∧ is_Some r).
Proof.
  intros n Q Hrun.
  destruct (endpoints_of n s !! endpoint_id ep) as [x|] eqn:Hl.
  2: { rewrite endpoint_Delete_unknown in Hrun by done.
       injection Hrun as <- <-. repeat split; try apply Q. left. by eauto. }
  destruct (network_driver n) as [d|] eqn:Hd.
  2: { exfalso. revert Hrun. subst n. enter s Q. unfold endpoint_Delete.
       by run with (first [rewrite Hl | rewrite Hd]). }
  destruct (DeleteEndpoint d (network_id n) (endpoint_id ep) (wld s)) as [r' w'] eqn:Hr.
  rewrite (endpoint_Delete_driver ep s d r' w') in Hrun by eauto.
  injection Hrun as <- <-. simpl. repeat split.
  destruct r'; right; [right|left]; simpl; [|done].
  fold n. rewrite insert_delete_insert. by eauto.
Qed.

(** *** The remaining methods *)

Lemma ConfigureNetworkDriver_unknown networkType opts (s : state) :
  drivers s !! networkType = None →
  ConfigureNetworkDriver networkType opts s = Some (Some (NetworkTypeError networkType), s).
Proof.
  intros Hd. destruct s as [nets drvs cl eps nl na ic rg w tr]; simpl in Hd.
  unfold ConfigureNetworkDriver. run_M. by rewrite Hd.
Qed.

Lemma ConfigureNetworkDriver_driver networkType opts (s : state) d r w' :
  drivers s !! networkType = Some d →
  Config d opts (wld s) = (r, w') →
  ConfigureNetworkDriver networkType opts s =
    Some (DriverError <$> r,
          mkState (networks s) (drivers s) (c_locked s) (endpoints s) (n_locked s)
                  (next_addr s) (id_calls s) (ranges s) w'
                  (trace s ++ [CallConfig (Type_ d)])).
Proof.
  intros Hd Hr. destruct s as [nets drvs cl eps nl na ic rg w tr]; simpl in Hd, Hr.
  unfold ConfigureNetworkDriver. run_M. rewrite Hd. run_M. by rewrite Hr.
Qed.

Lemma EndpointByID_run (n : network) (id : string) (s : state) :
  quiescent s → EndpointByID n id s = Some (endpoints_of n s !! id, s).
Proof.
  intros Q. enter s Q. unfold EndpointByID. by run with idtac.
Qed.

Lemma network_CreateEndpoint_nil_driver (n : network) name sboxKey opts (s : state) :
  network_driver n = None →
  network_CreateEndpoint GenerateRandomID n name sboxKey opts s = None.
Proof.
  intros Hd. destruct s as [nets drvs cl eps nl na ic rg w tr].
  unfold network_CreateEndpoint. run_M. by rewrite Hd.
Qed.

Lemma endpoint_Delete_nil_driver (ep : endpoint) (s : state) :
  quiescent s →
  is_Some (endpoints_of (endpoint_network ep) s !! endpoint_id ep) →
  network_driver (endpoint_network ep) = None →
  endpoint_Delete ep s = None.
Proof.
  intros Q [x Hl] Hd. enter s Q. unfold endpoint_Delete.
  by run with (first [rewrite Hl | rewrite Hd]).
Qed.

End Runs.

(** ** Deletion of a network *)

Section Claims.

Context {W options InfoData : Type}.
Variable GenerateRandomID : nat → string.
Variable range_seed : nat → nat.

Local Abbreviation state := (state W options InfoData).
Local Abbreviation network := (network W options InfoData).
Local Abbreviation endpoint := (endpoint W options InfoData).
Local Abbreviation Driver := (Driver W options InfoData).

(** C1.  Rollback: when [n] is registered and the call of the driver's
    [DeleteNetwork] that [n.Delete()] makes fails with [e], [Delete] returns
    that error, the network is stored back under its identifier (the last
    event of the trace), the registry is what it was before the call, and
    [NetworkByID] with the identifier of [n] returns [n]. *)
Theorem Delete_rollback (n : network) (s : state) (d : Driver) (e : string) w' :
  quiescent s →
  networks s !! network_id n = Some n →
  endpoints_of n s = ∅ →
  network_driver n = Some d →
  DeleteNetwork d (network_id n) (wld s) = (Some e, w') →
  ∃ s',
    network_Delete n s = Some (Some (DriverError e), s') ∧
    trace s' = trace s ++ [NetworksDelete (network_id n);
                           CallDeleteNetwork (Type_ d) (network_id n);
                           NetworksStore (network_id n) (network_addr n)] ∧
    networks s' = networks s ∧
    endpoints s' = endpoints s ∧
    quiescent s' ∧
    NetworkByID (ID n) s' = Some (Some n, s').
Proof.
  intros Q Hreg Hemp Hd Hfail.
  eexists. split.
  { by apply (network_Delete_driver n s d (Some e) w'). }
  assert (Hnets : <[network_id n := n]> (delete (network_id n) (networks s)) = networks s).
  { rewrite insert_delete_eq. by apply insert_id. }
  simpl. repeat split; try done.
  rewrite NetworkByID_run by done. simpl. unfold ID.
  by rewrite Hnets, Hreg.
Qed.

(** C9.  When [n.Delete()] returns [UnknownNetworkError] or
    [ActiveEndpointsError], the state it leaves is the state it found: the
    trace has no new event, so the driver's [DeleteNetwork] was not called,
    and both tables are as they were. *)
Theorem Delete_guard_errors (n : network) (s s' : state) (e : error) :
  quiescent s →
  network_Delete n s = Some (Some e, s') →
  (∃ name id, e = UnknownNetworkError name id ∨ e = ActiveEndpointsError name id) →
  s' = s ∧ trace s' = trace s ∧ networks s' = networks s ∧ endpoints s' = endpoints s.
Proof.
  intros Q Hrun He.
  assert (s' = s) as ->; [|done].
  destruct (networks s !! network_id n) as [x|] eqn:Hl.
  - destruct (decide (size (endpoints_of n s) = 0)) as [Hz|Hnz].
    + apply map_size_empty_iff in Hz.
      destruct (network_driver n) as [d|] eqn:Hd.
      * destruct (DeleteNetwork d (network_id n) (wld s)) as [r w'] eqn:Hr.
        rewrite (network_Delete_driver n s d r w') in Hrun by eauto.
        destruct r as [msg|]; simpl in Hrun; [|done].
        destruct He as (name & id & [->| ->]); done.
      * rewrite network_Delete_nil_driver in Hrun by eauto. done.
    + apply map_size_non_empty_iff in Hnz.
      rewrite network_Delete_active in Hrun by eauto. congruence.
  - rewrite network_Delete_unknown in Hrun by done. congruence.
Qed.

(** ** Creation of a network *)

(** C3.  When [NewNetwork] gets as far as the driver (the type has a driver
    and no registered network has the name) and [CreateNetwork] fails with
    [e], [NewNetwork] returns [(nil, e)]; the driver call is the only event
    and the registry is what it was before the call. *)
Theorem NewNetwork_driver_failure networkType name opts (s : state) (d : Driver)
    (e : string) w' :
  quiescent s →
  drivers s !! networkType = Some d →
  (∀ i n, networks s !! i = Some n → network_name n ≠ name) →
  CreateNetwork d (GenerateRandomID (id_calls s)) opts (wld s) = (Some e, w') →
  ∃ s',
    NewNetwork GenerateRandomID range_seed networkType name opts s =
      Some ((None, Some (DriverError e)), s') ∧
    networks s' = networks s ∧
    trace s' = trace s ++ [CallCreateNetwork (Type_ d) (GenerateRandomID (id_calls s))] ∧
    quiescent s'.
Proof.
  intros Q Hd Hfree Hfail.
  eexists. split.
  { apply (NewNetwork_driver _ _ networkType name opts s d (Some e) w'); try done.
    apply name_in_use_false. intros n Hn.
    apply elem_of_shuffle, list_elem_of_fmap in Hn as ([i n'] & -> & Hin).
    apply elem_of_map_to_list in Hin. by apply (Hfree i). }
  done.
Qed.

(** C10.  With a network type that has no driver, [NewNetwork] returns
    [ErrInvalidNetworkDriver] whatever the name, used or not: the name scan
    is not reached.  The state is untouched, so no driver method was called
    and the registry is unchanged. *)
Theorem NewNetwork_unknown_type networkType name opts (s : state) :
  drivers s !! networkType = None →
  NewNetwork GenerateRandomID range_seed networkType name opts s =
    Some ((None, Some ErrInvalidNetworkDriver), s).
Proof. apply NewNetwork_no_driver. Qed.

(** ** Lookup after creation and deletion *)

(** C6.  After a successful [NewNetwork], [NetworkByID] with the identifier
    of the returned network returns that network; after a successful
    [Delete] of a network, [NetworkByID] with its identifier returns nil. *)
Theorem NetworkByID_round_trip (s : state) :
  quiescent s →
  (∀ networkType name opts n s',
     NewNetwork GenerateRandomID range_seed networkType name opts s =
       Some ((Some n, None), s') →
     quiescent s' ∧ NetworkByID (ID n) s' = Some (Some n, s')) ∧
  (∀ n s',
     network_Delete n s = Some (None, s') →
     quiescent s' ∧ NetworkByID (ID n) s' = Some (None, s')).
Proof.
  intros Q. split.
  - intros networkType name opts n s' Hrun.
    destruct (drivers s !! networkType) as [d|] eqn:Hd.
    2: { rewrite NewNetwork_no_driver in Hrun by done. done. }
    destruct (name_in_use name
                (shuffle (range_seed (ranges s)) (map_to_list (networks s)).*2)) eqn:Hin.
    { rewrite (NewNetwork_name_taken _ _ _ _ _ _ d) in Hrun by done. done. }
    destruct (CreateNetwork d (GenerateRandomID (id_calls s)) opts (wld s)) as [r w'] eqn:Hr.
    rewrite (NewNetwork_driver _ _ _ _ _ _ d r w') in Hrun by done.
    destruct r as [msg|]; [done|].
    injection Hrun as <- <-.
    assert (Q' : quiescent
      (mkState (<[GenerateRandomID (id_calls s) :=
                   mkNetwork (next_addr s) name "" (GenerateRandomID (id_calls s)) (Some d)]>
                  (networks s))
         (drivers s) false (<[next_addr s := ∅]> (endpoints s)) ∅ (S (next_addr s))
         (S (id_calls s)) (S (ranges s)) w'
         (trace s ++ [CallCreateNetwork (Type_ d) (GenerateRandomID (id_calls s));
                      NetworksStore (GenerateRandomID (id_calls s)) (next_addr s)]))) by done.
    split; [done|]. rewrite NetworkByID_run by done. simpl.
    by rewrite lookup_insert_eq.
  - intros n s' Hrun.
    destruct (networks s !! network_id n) as [x|] eqn:Hl.
    2: { rewrite network_Delete_unknown in Hrun by done. done. }
    destruct (decide (size (endpoints_of n s) = 0)) as [Hz|Hnz].
    2: { apply map_size_non_empty_iff in Hnz.
         rewrite network_Delete_active in Hrun by eauto. done. }
    apply map_size_empty_iff in Hz.
    destruct (network_driver n) as [d|] eqn:Hd.
    2: { rewrite network_Delete_nil_driver in Hrun by eauto. done. }
    destruct (DeleteNetwork d (network_id n) (wld s)) as [r w'] eqn:Hr.
    rewrite (network_Delete_driver n s d r w') in Hrun by eauto.
    destruct r as [msg|]; [done|]. simpl in Hrun. injection Hrun as <-.
    assert (Q' : quiescent
      (mkState (delete (network_id n) (networks s)) (drivers s) false (endpoints s) ∅
         (next_addr s) (id_calls s) (ranges s) w'
         (trace s ++ [NetworksDelete (network_id n);
                      CallDeleteNetwork (Type_ d) (network_id n)]))) by done.
    split; [done|]. rewrite NetworkByID_run by done. simpl. unfold ID.
    by rewrite lookup_delete_eq.
Qed.

(** ** Deletion of an endpoint *)

(** C5.  [ep.Delete()] returns [UnknownEndpointError] and leaves the state
    alone when the identifier of [ep] is not in the table of its network.
    When it is, the entry is deleted, then the driver's [DeleteEndpoint] is
    called (the events come in this order, the driver runs on the world of
    the state before the call); if the driver fails, [ep] is stored back
    under its identifier and the driver's error is returned, otherwise the
    entry stays deleted and nil is returned. *)
Theorem endpoint_Delete_spec (ep : endpoint) (s : state) :
  let n := endpoint_network ep in
  quiescent s →
  (endpoints_of n s !! endpoint_id ep = None →
   endpoint_Delete ep s =
     Some (Some (UnknownEndpointError (endpoint_name ep) (endpoint_id ep)), s)) ∧
  (∀ d r w',
     is_Some (endpoints_of n s !! endpoint_id ep) →
     network_driver n = Some d →
     DeleteEndpoint d (network_id n) (endpoint_id ep) (wld s) = (r, w') →
     ∃ s',
       endpoint_Delete ep s = Some (DriverError <$> r, s') ∧
       trace s' =
         trace s ++ EndpointsDelete (network_addr n) (endpoint_id ep) ::
                    CallDeleteEndpoint (Type_ d) (network_id n) (endpoint_id ep) ::
                    match r with
                    | Some _ =>
                        [EndpointsStore (network_addr n) (endpoint_id ep) (endpoint_addr ep)]
                    | None => []
                    end ∧
       endpoints_of n s' =
         match r with
         | Some _ => <[endpoint_id ep := ep]> (endpoints_of n s)
         | None => delete (endpoint_id ep) (endpoints_of n s)
         end ∧
       wld s' = w' ∧
       networks s' = networks s ∧
       quiescent s').
Proof.
  intros n Q. split.
  - by apply endpoint_Delete_unknown.
  - intros d r w' Hin Hd Hr. eexists. split.
    { by apply (endpoint_Delete_driver ep s d r w'). }
    simpl. repeat split; try done.
    subst n. unfold endpoints_of at 1. simpl.
    destruct r as [msg|]; rewrite lookup_insert_eq; simpl; [|done].
    by rewrite insert_delete_eq.
Qed.

(** ** The shape of the tables *)

Lemma table_wf_empty (a : nat) : table_wf a (∅ : gmap UUID endpoint).
Proof. intros i e Hl. by rewrite lookup_empty in Hl. Qed.

Lemma table_wf_insert (n : network) (ep : endpoint) (t : gmap UUID endpoint) :
  endpoint_network ep = n →
  table_wf (network_addr n) t →
  table_wf (network_addr n) (<[endpoint_id ep := ep]> t).
Proof.
  intros Hn Ht i e. rewrite lookup_insert. case_decide as Hi.
  - intros [= <-]. by rewrite Hn.
  - apply Ht.
Qed.

Lemma table_wf_delete (a : nat) (i : UUID) (t : gmap UUID endpoint) :
  table_wf a t → table_wf a (delete i t).
Proof.
  intros Ht j e Hl. apply lookup_delete_Some in Hl as [_ Hl]. by apply Ht.
Qed.

Lemma table_wf_keyed (a : nat) (t : gmap UUID endpoint) : table_wf a t → keyed_by_id t.
Proof. intros Ht i e Hl. by apply (Ht i e). Qed.


Lemma endpoints_of_wf (n : network) (s : state) :
  tables_wf s → table_wf (network_addr n) (endpoints_of n s).
Proof.
  intros [_ Hwf]. unfold endpoints_of.
  destruct (endpoints s !! network_addr n) as [t|] eqn:Hl; simpl.
  - by apply Hwf.
  - apply table_wf_empty.
Qed.

Lemma tables_wf_New (drv : gmap string Driver) w : tables_wf (New drv w).
Proof. split; intros ? ? Hl; simpl in Hl; by rewrite lookup_empty in Hl. Qed.

Lemma quiescent_New (drv : gmap string Driver) w : quiescent (New drv w).
Proof. done. Qed.

Lemma tables_wf_update (s s' : state) (a : nat) (t : gmap UUID endpoint) :
  tables_wf s →
  (∀ i n, networks s' !! i = Some n → network_id n = i) →
  endpoints s' = <[a := t]> (endpoints s) →
  table_wf a t →
  tables_wf s'.
Proof.
  intros [_ Hwf] Hnets Heps Ht. split; [done|]. rewrite Heps.
  intros b u. rewrite lookup_insert. case_decide as Hb.
  - intros [= <-]. by subst b.
  - apply Hwf.
Qed.

(** The four writers keep the tables well formed and release their locks. *)
Lemma exec_wf (c : api_call W options InfoData) (s s' : state) :
  quiescent s → tables_wf s →
  exec GenerateRandomID range_seed c s = Some (tt, s') →
  quiescent s' ∧ tables_wf s'.
Proof.
  intros Q Hwf Hrun. destruct c as [networkType name opts|n|n name sboxKey opts|ep];
    unfold exec, mbind, M_bind in Hrun.
  - destruct (NewNetwork_returns GenerateRandomID range_seed networkType name opts s Q)
      as (r & s1 & Hr & Q1 & Heps & Hnets).
    rewrite Hr in Hrun. injection Hrun as <-. split; [done|].
    assert (Hn1 : ∀ i n, networks s1 !! i = Some n → network_id n = i).
    { destruct Hnets as [->|(n & _ & _ & _ & _ & ->)]; [apply Hwf|].
      intros i m. rewrite lookup_insert. case_decide as Hi.
      - by intros [= <-].
      - apply Hwf. }
    destruct Heps as [Heps|Heps].
    + split; [done|]. rewrite Heps. apply Hwf.
    + by eapply tables_wf_update, table_wf_empty.
  - destruct (network_Delete n s) as [[r s1]|] eqn:Hr; [|done].
    injection Hrun as <-.
    destruct (network_Delete_returns n s s1 r Q Hr) as (Q1 & Heps & Hnets).
    split; [done|]. split; [|rewrite Heps; apply Hwf].
    destruct Hnets as [->|[->| ->]]; [apply Hwf| |].
    + intros i m Hl. apply lookup_delete_Some in Hl as [_ Hl]. by apply Hwf.
    + intros i m. rewrite lookup_insert. case_decide as Hi.
      * by intros [= <-].
      * apply Hwf.
  - destruct (network_CreateEndpoint GenerateRandomID n name sboxKey opts s)
      as [[r s1]|] eqn:Hr; [|done].
    injection Hrun as <-.
    destruct (network_driver n) as [d|] eqn:Hd.
    2: { exfalso. revert Hr. unfold network_CreateEndpoint, the_driver, alloc,
           GenerateRandomID_call, mbind, mret, M_bind, M_ret, get, modify, stop.
         simpl. by rewrite Hd. }
    destruct (network_CreateEndpoint_returns GenerateRandomID n name sboxKey opts s Q)
      as (r' & s2 & Hr' & Q1 & Hnets & Heps); [by eauto|].
    rewrite Hr in Hr'. injection Hr' as <- <-. split; [done|].
    destruct Heps as [Heps|(ep & _ & _ & Hn & Heps)].
    + split; [rewrite Hnets|rewrite Heps]; apply Hwf.
    + eapply tables_wf_update; [done|rewrite Hnets; apply Hwf|done|].
      by apply table_wf_insert, endpoints_of_wf.
  - destruct (endpoint_Delete ep s) as [[r s1]|] eqn:Hr; [|done].
    injection Hrun as <-.
    destruct (endpoint_Delete_returns ep s s1 r Q Hr) as (Q1 & Hnets & Heps).
    split; [done|].
    destruct Heps as [[Heps _]|[[Heps _]|[Heps _]]].
    + split; [rewrite Hnets|rewrite Heps]; apply Hwf.
    + eapply tables_wf_update; [done|rewrite Hnets; apply Hwf|done|].
      by apply table_wf_delete, endpoints_of_wf.
    + eapply tables_wf_update; [done|rewrite Hnets; apply Hwf|done|].
      by apply table_wf_insert, endpoints_of_wf.
Qed.

(** In every state a sequential client can reach from [New()], no lock is
    held and the tables are well formed. *)
Lemma exec_all_wf (cs : list (api_call W options InfoData)) (s s' : state) :
  quiescent s → tables_wf s →
  exec_all GenerateRandomID range_seed cs s = Some (tt, s') →
  quiescent s' ∧ tables_wf s'.
Proof.
  revert s. induction cs as [|c cs IH]; intros s Q Hwf Hrun.
  - injection Hrun as <-. done.
  - simpl in Hrun. unfold mbind, M_bind in Hrun.
    destruct (exec GenerateRandomID range_seed c s) as [[[] s1]|] eqn:Hc; [|done].
    destruct (exec_wf c s s1 Q Hwf Hc) as [Q1 Hwf1]. by apply (IH s1).
Qed.

(** ** Guarded deletion *)





(** ** Uniqueness *)





(** ** Walks *)

Lemma WalkNetworks_run {A} (walker : network → A → bool * A) (a : A) (s : state) :
  quiescent s →
  WalkNetworks range_seed walker a s =
    Some (walk walker (shuffle (range_seed (ranges s)) (map_to_list (networks s)).*2) a,
          set_ranges (S (ranges s)) s).
Proof.
  intros Q. unfold WalkNetworks, mbind, M_bind. by rewrite Networks_run.
Qed.

Lemma WalkEndpoints_run {A} (n : network) (walker : endpoint → A → bool * A) (a : A)
    (s : state) :
  quiescent s →
  WalkEndpoints range_seed n walker a s =
    Some ((tt, (walk walker
                  (shuffle (range_seed (ranges s)) (map_to_list (endpoints_of n s)).*2) a).2),
          set_ranges (S (ranges s)) s).
Proof.
  intros Q. unfold WalkEndpoints, mbind, M_bind. by rewrite Endpoints_run.
Qed.


(** ** The sandbox snapshot *)

Lemma GetCopy_run (p : nat) (v : InfoData) (s : state) :
  infos (wld s) !! p = Some v →
  let q := fresh (dom (infos (wld s))) in
  GetCopy p s =
    Some (q, set_wld (mkWorld (driver_state (wld s)) (<[q := v]> (infos (wld s)))) s).
Proof.
  intros Hp. unfold GetCopy, mbind, mret, M_bind, M_ret, get, modify. simpl.
  by rewrite Hp.
Qed.

(** C8.  [SandboxInfo] returns nil, and leaves the state alone, when the
    endpoint holds no snapshot.  Otherwise it returns a pointer [q] to a new
    object: [q] was not allocated before the call, so it differs from the
    stored pointer [p]; the new object has the content of the stored one;
    the call changes nothing else; and whatever is written through [q]
    afterwards, the object at [p] keeps its content. *)
Theorem SandboxInfo_copy (ep : endpoint) (s : state) :
  (endpoint_sandboxInfo ep = None → SandboxInfo ep s = Some (None, s)) ∧
  (∀ p v,
     endpoint_sandboxInfo ep = Some p →
     infos (wld s) !! p = Some v →
     ∃ q s',
       SandboxInfo ep s = Some (Some q, s') ∧
       q ≠ p ∧
       infos (wld s) !! q = None ∧
       infos (wld s') !! q = Some v ∧
       (∀ a, a ≠ q → infos (wld s') !! a = infos (wld s) !! a) ∧
       (∀ v', <[q := v']> (infos (wld s')) !! p = Some v) ∧
       networks s' = networks s ∧ endpoints s' = endpoints s ∧ trace s' = trace s).
Proof.
  split.
  - intros Hnil. unfold SandboxInfo. by rewrite Hnil.
  - intros p v Hp Hv.
    assert (Hfresh : infos (wld s) !! fresh (dom (infos (wld s))) = None).
    { apply not_elem_of_dom, is_fresh. }
    assert (Hne : fresh (dom (infos (wld s))) ≠ p).
    { intros Heq. rewrite Heq in Hfresh. congruence. }
    do 2 eexists. split.
    { unfold SandboxInfo, mbind, M_bind. rewrite Hp.
      by rewrite (GetCopy_run p v s Hv). }
    simpl. repeat split; try done.
    + by rewrite lookup_insert_eq.
    + intros a Ha. by rewrite lookup_insert_ne.
    + intros v'. by rewrite insert_insert_eq, lookup_insert_ne.
Qed.

End Claims.

(** * The properties on the concrete setting *)

(** Closed goals are settled by evaluation. *)
Ltac evaluate := vm_compute; reflexivity.

Lemma ex_s1_quiescent : quiescent ex_s1.
Proof. split; reflexivity. Qed.

Lemma ex_s2_quiescent : quiescent ex_s2.
Proof. split; reflexivity. Qed.

Lemma ex_t1_quiescent : quiescent ex_t1.
Proof. split; reflexivity. Qed.

Lemma ex_t2_quiescent : quiescent ex_t2.
Proof. split; reflexivity. Qed.

Lemma ex_s2_reached :
  exec_all ex_gen ex_seed
    [DoNewNetwork "bridge" "net1" tt; DoCreateEndpoint ex_net1 "ep1" "/ns/path" tt] ex_init
  = Some (tt, ex_s2).
Proof. evaluate. Qed.

Lemma ex_s2_wf : tables_wf ex_s2.
Proof.
  eapply (exec_all_wf ex_gen ex_seed _ ex_init ex_s2).
  - apply quiescent_New.
  - apply tables_wf_New.
  - apply ex_s2_reached.
Qed.

(** The network of the driver whose deletions fail: [Delete] returns the
    driver's error and [NetworkByID] still finds the network. *)
Lemma Delete_rollback_witness :
  ∃ s',
    network_Delete ex_net2 ex_t1 = Some (Some (DriverError "device busy"), s') ∧
    trace s' = trace ex_t1 ++ [NetworksDelete "0"; CallDeleteNetwork "stuck" "0";
                               NetworksStore "0" 0] ∧
    networks s' = networks ex_t1 ∧
    endpoints s' = endpoints ex_t1 ∧
    quiescent s' ∧
    NetworkByID "0" s' = Some (Some ex_net2, s').
Proof.
  apply (Delete_rollback ex_net2 ex_t1 ex_stuck "device busy" (wld ex_t1)).
  - split; evaluate.
  - evaluate.
  - evaluate.
  - evaluate.
  - evaluate.
Defined.

(** [net1] has an endpoint: its [Delete] is refused and nothing moves. *)
Lemma Delete_guard_errors_witness :
  network_Delete ex_net1 ex_s2 = Some (Some (ActiveEndpointsError "net1" "0"), ex_s2) ∧
  (ex_s2 = ex_s2 ∧ trace ex_s2 = trace ex_s2 ∧
   networks ex_s2 = networks ex_s2 ∧ endpoints ex_s2 = endpoints ex_s2).
Proof.
  split; [evaluate|].
  apply (Delete_guard_errors ex_net1 ex_s2 ex_s2 (ActiveEndpointsError "net1" "0")).
  - split; evaluate.
  - evaluate.
  - exists "net1", "0". right. evaluate.
Defined.

(** The driver "broken" refuses to create a network. *)
Lemma NewNetwork_driver_failure_witness :
  ∃ s',
    NewNetwork ex_gen ex_seed "broken" "net9" tt ex_init =
      Some ((None, Some (DriverError "create failed")), s') ∧
    networks s' = networks ex_init ∧
    trace s' = trace ex_init ++ [CallCreateNetwork "broken" "0"] ∧
    quiescent s'.
Proof.
  apply (NewNetwork_driver_failure ex_gen ex_seed "broken" "net9" tt ex_init ex_broken
           "create failed" (wld ex_init)).
  - split; evaluate.
  - evaluate.
  - intros i n Hl. simpl in Hl. by rewrite lookup_empty in Hl.
  - evaluate.
Defined.

(** No driver is registered for "overlay"; the name "net1" is in use. *)
Lemma NewNetwork_unknown_type_witness :
  networks ex_s1 !! "0" = Some ex_net1 ∧
  NewNetwork ex_gen ex_seed "overlay" "net1" tt ex_s1 =
    Some ((None, Some ErrInvalidNetworkDriver), ex_s1).
Proof.
  split; [evaluate|].
  apply (NewNetwork_unknown_type ex_gen ex_seed "overlay" "net1" tt ex_s1).
  evaluate.
Defined.

(** A second network is created and found; [net1] is deleted and gone. *)
Lemma NetworkByID_round_trip_witness :
  let n := mkNetwork 1 "net2" "" "1" (Some ex_bridge) in
  let s' := state_after (NewNetwork ex_gen ex_seed "bridge" "net2" tt) ex_s1 in
  (quiescent s' ∧ NetworkByID "1" s' = Some (Some n, s')) ∧
  (quiescent ex_s3 ∧ NetworkByID "0" ex_s3 = Some (None, ex_s3)).
Proof.
  intros n s'.
  destruct (NetworkByID_round_trip ex_gen ex_seed ex_s1 ex_s1_quiescent) as [Hnew Hdel].
  split.
  - apply (Hnew "bridge" "net2" tt n s'). evaluate.
  - apply (Hdel ex_net1 ex_s3). evaluate.
Defined.

(** [ep2] is not in the table before it is created; once created, the driver
    refuses to delete it and it is stored back. *)
Lemma endpoint_Delete_spec_witness :
  endpoint_Delete ex_ep2 ex_t1 = Some (Some (UnknownEndpointError "ep2" "1"), ex_t1) ∧
  ∃ s',
    endpoint_Delete ex_ep2 ex_t2 = Some (Some (DriverError "device busy"), s') ∧
    trace s' = trace ex_t2 ++ [EndpointsDelete 0 "1"; CallDeleteEndpoint "stuck" "0" "1";
                               EndpointsStore 0 "1" 1] ∧
    endpoints_of ex_net2 s' = <["1" := ex_ep2]> (endpoints_of ex_net2 ex_t2) ∧
    wld s' = wld ex_t2 ∧
    networks s' = networks ex_t2 ∧
    quiescent s'.
Proof.
  split.
  - apply (endpoint_Delete_spec ex_ep2 ex_t1 ex_t1_quiescent). evaluate.
  - apply (proj2 (endpoint_Delete_spec ex_ep2 ex_t2 ex_t2_quiescent)
             ex_stuck (Some "device busy") (wld ex_t2)).
    + exists ex_ep2. evaluate.
    + evaluate.
    + evaluate.
Defined.




(** [ep1] holds the snapshot at address 0; [SandboxInfo] returns a copy at
    address 1.  An endpoint without snapshot answers nil. *)
Lemma SandboxInfo_copy_witness :
  SandboxInfo (mkEndpoint 7 "bare" "7" ex_net1 None) ex_s2 = Some (None, ex_s2) ∧
  ∃ q s',
    SandboxInfo ex_ep1 ex_s2 = Some (Some q, s') ∧
    q ≠ 0 ∧
    infos (wld ex_s2) !! q = None ∧
    infos (wld s') !! q = Some "/ns/path" ∧
    (∀ a, a ≠ q → infos (wld s') !! a = infos (wld ex_s2) !! a) ∧
    (∀ v', <[q := v']> (infos (wld s')) !! 0 = Some "/ns/path") ∧
    networks s' = networks ex_s2 ∧ endpoints s' = endpoints ex_s2 ∧
    trace s' = trace ex_s2.
Proof.
  split.
  - apply (SandboxInfo_copy (mkEndpoint 7 "bare" "7" ex_net1 None) ex_s2). evaluate.
  - apply (proj2 (SandboxInfo_copy ex_ep1 ex_s2) 0 "/ns/path"); evaluate.
Defined.

(** * Where the code departs from the wording *)



(** * Further properties: the remaining methods and how the methods compose *)

(** ** Lookup by name: the closures of [NetworkByName] and [EndpointByName] *)

Lemma walk_by_name_miss {T} (nm : T → string) (name : string) (l : list T)
    (acc : option T) :
  (∀ x, x ∈ l → nm x ≠ name) →
  walk (λ current acc,
          if String.eqb (nm current) name then (true, Some current) else (false, acc))
       l acc = (false, acc).
Proof.
  induction l as [|x l IH]; intros Hall; simpl; [done|].
  destruct (String.eqb_spec (nm x) name) as [Heq|Hne].
  - destruct (Hall x); [left|done].
  - apply IH. intros y Hy. apply Hall. by right.
Qed.

Lemma walk_by_name_head {T} (nm : T → string) (name : string) (x : T) (l : list T)
    (acc : option T) :
  nm x = name →
  walk (λ current acc,
          if String.eqb (nm current) name then (true, Some current) else (false, acc))
       (x :: l) acc = (true, Some x).
Proof. intros Heq. simpl. by rewrite (proj2 (String.eqb_eq _ _) Heq). Qed.

Lemma walk_by_name_hit {T} (nm : T → string) (name : string) (l : list T)
    (acc : option T) :
  (∃ x, x ∈ l ∧ nm x = name) →
  ∃ y, y ∈ l ∧ nm y = name ∧
       walk (λ current acc,
               if String.eqb (nm current) name then (true, Some current) else (false, acc))
            l acc = (true, Some y).
Proof.
  induction l as [|x l IH]; intros (z & Hz & Hnm).
  - by apply elem_of_nil in Hz.
  - destruct (String.eqb_spec (nm x) name) as [Heq|Hne].
    + exists x. split; [left|]. split; [done|]. by apply walk_by_name_head.
    + apply elem_of_cons in Hz as [->|Hz]; [done|].
      destruct IH as (y & Hy & Hynm & Hwalk); [by exists z|].
      exists y. split; [by right|]. split; [done|].
      simpl. by rewrite (proj2 (String.eqb_neq _ _) Hne).
Qed.

Lemma name_free_dec {T} (nm : T → string) (name : string) (l : list T) :
  (∀ x, x ∈ l → nm x ≠ name) ∨ (∃ x, x ∈ l ∧ nm x = name).
Proof.
  induction l as [|x l [IH|(y & Hy & Hnm)]].
  - left. intros x Hx. by apply elem_of_nil in Hx.
  - destruct (decide (nm x = name)) as [Heq|Hne].
    + right. exists x. split; [left|done].
    + left. intros y Hy. apply elem_of_cons in Hy as [->|Hy]; [done|by apply IH].
  - right. exists y. split; [by right|done].
Qed.

(** The walk of a lookup by name answers nil or an element of the list that
    bears the name. *)
Lemma walk_by_name_cases {T} (nm : T → string) (name : string) (l : list T) :
  let r := (walk (λ current acc,
                    if String.eqb (nm current) name then (true, Some current)
                    else (false, acc)) l None).2 in
  (r = None ∧ ∀ x, x ∈ l → nm x ≠ name) ∨ (∃ y, r = Some y ∧ y ∈ l ∧ nm y = name).
Proof.
  intros r. subst r.
  destruct (name_free_dec nm name l) as [Hfree|Hused].
  - left. by rewrite walk_by_name_miss.
  - right. destruct (walk_by_name_hit nm name l None Hused) as (y & Hy & Hnm & ->).
    by exists y.
Qed.

Section Coverage.

Context {W options InfoData : Type}.
Variable GenerateRandomID : nat → string.
Variable range_seed : nat → nat.

Local Abbreviation state := (state W options InfoData).
Local Abbreviation network := (network W options InfoData).
Local Abbreviation endpoint := (endpoint W options InfoData).
Local Abbreviation Driver := (Driver W options InfoData).

(** ** What a call that has returned went through *)

Lemma NewNetwork_inv networkType name opts (s s' : state) r :
  quiescent s →
  NewNetwork GenerateRandomID range_seed networkType name opts s = Some (r, s') →
  (drivers s !! networkType = None ∧ r = (None, Some ErrInvalidNetworkDriver) ∧ s' = s) ∨
  (∃ d i m, drivers s !! networkType = Some d ∧
            networks s !! i = Some m ∧ network_name m = name ∧
            r = (None, Some (NetworkNameError name)) ∧
            s' = set_ranges (S (ranges s)) s) ∨
  (∃ d r0 w',
     drivers s !! networkType = Some d ∧
     (∀ i m, networks s !! i = Some m → network_name m ≠ name) ∧
     CreateNetwork d (GenerateRandomID (id_calls s)) opts (wld s) = (r0, w') ∧
     let id := GenerateRandomID (id_calls s) in
     let n := mkNetwork (next_addr s) name "" id (Some d) in
     r = match r0 with
         | Some e => (None, Some (DriverError e))
         | None => (Some n, None)
         end ∧
     s' = mkState (match r0 with
                   | Some _ => networks s
                   | None => <[id := n]> (networks s)
                   end)
                  (drivers s) false (<[next_addr s := ∅]> (endpoints s)) ∅
                  (S (next_addr s)) (S (id_calls s)) (S (ranges s)) w'
                  (trace s ++ CallCreateNetwork (Type_ d) id ::
                     match r0 with
                     | Some _ => []
                     | None => [NetworksStore id (next_addr s)]
                     end)).
Proof.
  intros Q Hrun.
  destruct (drivers s !! networkType) as [d|] eqn:Hd.
  2: { rewrite NewNetwork_no_driver in Hrun by done. injection Hrun as <- <-. by left. }
  right.
  destruct (name_in_use name
              (shuffle (range_seed (ranges s)) (map_to_list (networks s)).*2)) eqn:Hin.
  - rewrite (NewNetwork_name_taken _ _ _ _ _ _ d) in Hrun by done.
    injection Hrun as <- <-. left.
    apply name_in_use_true in Hin as (m & Hm & Hnm).
    apply elem_of_shuffle, list_elem_of_fmap in Hm as ([i m'] & -> & Hm).
    apply elem_of_map_to_list in Hm. by exists d, i, m'.
  - destruct (CreateNetwork d (GenerateRandomID (id_calls s)) opts (wld s))
      as [r0 w'] eqn:Hr.
    rewrite (NewNetwork_driver _ _ _ _ _ _ d r0 w') in Hrun by done.
    injection Hrun as <- <-. right. exists d, r0, w'.
    split; [done|]. split; [|done].
    intros i m Hm. rewrite name_in_use_false in Hin. apply Hin.
    apply elem_of_shuffle, list_elem_of_fmap. exists (i, m). split; [done|].
    by apply elem_of_map_to_list.
Qed.

Lemma network_Delete_inv (n : network) (s s' : state) r :
  quiescent s →
  network_Delete n s = Some (r, s') →
  (networks s !! network_id n = None ∧
   r = Some (UnknownNetworkError (network_name n) (network_id n)) ∧ s' = s) ∨
  (is_Some (networks s !! network_id n) ∧ endpoints_of n s ≠ ∅ ∧
   r = Some (ActiveEndpointsError (network_name n) (network_id n)) ∧ s' = s) ∨
  (∃ d r0 w',
     is_Some (networks s !! network_id n) ∧ endpoints_of n s = ∅ ∧
     network_driver n = Some d ∧
     DeleteNetwork d (network_id n) (wld s) = (r0, w') ∧
     r = DriverError <$> r0 ∧
     s' = mkState (match r0 with
                   | Some _ => <[network_id n := n]> (networks s)
                   | None => delete (network_id n) (networks s)
                   end)
                  (drivers s) false (endpoints s) ∅
                  (next_addr s) (id_calls s) (ranges s) w'
                  (trace s ++ NetworksDelete (network_id n) ::
                     CallDeleteNetwork (Type_ d) (network_id n) ::
                     match r0 with
                     | Some _ => [NetworksStore (network_id n) (network_addr n)]
                     | None => []
                     end)).
Proof.
  intros Q Hrun.
  destruct (networks s !! network_id n) as [x|] eqn:Hl.
  2: { rewrite network_Delete_unknown in Hrun by done. injection Hrun as <- <-. by left. }
  right.
  destruct (decide (size (endpoints_of n s) = 0)) as [Hz|Hnz].
  2: { apply map_size_non_empty_iff in Hnz.
       rewrite network_Delete_active in Hrun by eauto.
       injection Hrun as <- <-. left. eauto. }
  apply map_size_empty_iff in Hz.
  destruct (network_driver n) as [d|] eqn:Hd.
  2: { rewrite network_Delete_nil_driver in Hrun by eauto. done. }
  destruct (DeleteNetwork d (network_id n) (wld s)) as [r0 w'] eqn:Hr.
  rewrite (network_Delete_driver n s d r0 w') in Hrun by eauto.
  injection Hrun as <- <-. right. exists d, r0, w'.
  repeat split; eauto.
  destruct r0; [|done]. by rewrite insert_delete_eq.
Qed.

Lemma network_CreateEndpoint_inv (n : network) name sboxKey opts (s s' : state) r :
  quiescent s →
  network_CreateEndpoint GenerateRandomID n name sboxKey opts s = Some (r, s') →
  ∃ d sinfo r0 w',
    network_driver n = Some d ∧
    CreateEndpoint d (network_id n) (GenerateRandomID (id_calls s)) sboxKey opts (wld s)
      = ((sinfo, r0), w') ∧
    let id := GenerateRandomID (id_calls s) in
    let ep := mkEndpoint (next_addr s) name id n sinfo in
    r = match r0 with
        | Some e => (None, Some (DriverError e))
        | None => (Some ep, None)
        end ∧
    s' = mkState (networks s) (drivers s) false
                 (match r0 with
                  | Some _ => endpoints s
                  | None => <[network_addr n := <[id := ep]> (endpoints_of n s)]> (endpoints s)
                  end)
                 ∅ (S (next_addr s)) (S (id_calls s)) (ranges s) w'
                 (trace s ++ CallCreateEndpoint (Type_ d) (network_id n) id sboxKey ::
                    match r0 with
                    | Some _ => []
                    | None => [EndpointsStore (network_addr n) id (next_addr s)]
                    end).
Proof.
  intros Q Hrun.
  destruct (network_driver n) as [d|] eqn:Hd.
  2: { by rewrite network_CreateEndpoint_nil_driver in Hrun. }
  destruct (CreateEndpoint d (network_id n) (GenerateRandomID (id_calls s)) sboxKey opts
              (wld s)) as [[sinfo r0] w'] eqn:Hr.
  rewrite (network_CreateEndpoint_driver _ n name sboxKey opts s d sinfo r0 w') in Hrun
    by done.
  injection Hrun as <- <-. by exists d, sinfo, r0, w'.
Qed.

Lemma endpoint_Delete_inv (ep : endpoint) (s s' : state) r :
  let n := endpoint_network ep in
  quiescent s →
  endpoint_Delete ep s = Some (r, s') →
  (endpoints_of n s !! endpoint_id ep = None ∧
   r = Some (UnknownEndpointError (endpoint_name ep) (endpoint_id ep)) ∧ s' = s) ∨
  (∃ d r0 w',
     is_Some (endpoints_of n s !! endpoint_id ep) ∧
     network_driver n = Some d ∧
     DeleteEndpoint d (network_id n) (endpoint_id ep) (wld s) = (r0, w') ∧
     r = DriverError <$> r0 ∧
     s' = mkState (networks s) (drivers s) false
                  (<[network_addr n :=
                       match r0 with
                       | Some _ => <[endpoint_id ep := ep]> (endpoints_of n s)
                       | None => delete (endpoint_id ep) (endpoints_of n s)
                       end]> (endpoints s))
                  ∅ (next_addr s) (id_calls s) (ranges s) w'
                  (trace s ++ EndpointsDelete (network_addr n) (endpoint_id ep) ::
                     CallDeleteEndpoint (Type_ d) (network_id n) (endpoint_id ep) ::
                     match r0 with
                     | Some _ =>
                         [EndpointsStore (network_addr n) (endpoint_id ep) (endpoint_addr ep)]
                     | None => []
                     end)).
Proof.
  intros n Q Hrun.
  destruct (endpoints_of n s !! endpoint_id ep) as [x|] eqn:Hl.
  2: { rewrite endpoint_Delete_unknown in Hrun by done. injection Hrun as <- <-. by left. }
  right.
  destruct (network_driver n) as [d|] eqn:Hd.
  2: { rewrite endpoint_Delete_nil_driver in Hrun by eauto. done. }
  destruct (DeleteEndpoint d (network_id n) (endpoint_id ep) (wld s)) as [r0 w'] eqn:Hr.
  rewrite (endpoint_Delete_driver ep s d r0 w') in Hrun by eauto.
  injection Hrun as <- <-. exists d, r0, w'. fold n.
  repeat split; eauto.
  destruct r0; [|done]. by rewrite insert_delete_insert.
Qed.

Lemma NetworkByName_run (name : string) (s : state) :
  quiescent s → name ≠ "" →
  NetworkByName range_seed name s =
    Some ((walk (λ current acc,
                   if String.eqb (network_name current) name then (true, Some current)
                   else (false, acc))
                (shuffle (range_seed (ranges s)) (map_to_list (networks s)).*2) None).2,
          set_ranges (S (ranges s)) s).
Proof.
  intros Q Hne. unfold NetworkByName. rewrite decide_True by done.
  cbv zeta. unfold mbind, M_bind. rewrite WalkNetworks_run by done.
  by destruct (walk _ _ _).
Qed.

Lemma EndpointByName_run (n : network) (name : string) (s : state) :
  quiescent s → name ≠ "" →
  EndpointByName range_seed n name s =
    Some ((walk (λ current acc,
                   if String.eqb (endpoint_name current) name then (true, Some current)
                   else (false, acc))
                (shuffle (range_seed (ranges s)) (map_to_list (endpoints_of n s)).*2) None).2,
          set_ranges (S (ranges s)) s).
Proof.
  intros Q Hne. unfold EndpointByName. rewrite decide_True by done.
  cbv zeta. unfold mbind, M_bind. rewrite WalkEndpoints_run by done. done.
Qed.

Lemma EndpointByName_run' (order : nat → nat) (n : network) (name : string) (s : state) :
  quiescent s → name ≠ "" →
  EndpointByName order n name s =
    Some ((walk (λ current acc,
                   if String.eqb (endpoint_name current) name then (true, Some current)
                   else (false, acc))
                (shuffle (order (ranges s)) (map_to_list (endpoints_of n s)).*2) None).2,
          set_ranges (S (ranges s)) s).
Proof.
  intros Q Hne. unfold EndpointByName. rewrite decide_True by done.
  cbv zeta. unfold mbind, M_bind. rewrite WalkEndpoints_run by done. done.
Qed.

Lemma endpoints_of_stored (n : network) (s : state) eps (t : gmap UUID endpoint) :
  endpoints s = <[network_addr n := t]> eps → endpoints_of n s = t.
Proof. intros Heq. unfold endpoints_of. by rewrite Heq, lookup_insert_eq. Qed.

Lemma elem_of_range {V} (m : gmap UUID V) (seed : nat) (x : V) :
  x ∈ shuffle seed (map_to_list m).*2 ↔ ∃ i, m !! i = Some x.
Proof.
  rewrite elem_of_shuffle, list_elem_of_fmap. split.
  - intros ([i y] & -> & Hm). exists i. by apply elem_of_map_to_list.
  - intros [i Hm]. exists (i, x). split; [done|]. by apply elem_of_map_to_list.
Qed.

(** ** The controller *)

(** X1.  [ConfigureNetworkDriver] with a type that has no driver returns
    [NetworkTypeError] and leaves the state as it is.  With a driver it calls
    [Config] once and returns what [Config] returns; it takes no lock and
    writes to no table. *)
Theorem ConfigureNetworkDriver_spec networkType opts (s : state) :
  (drivers s !! networkType = None →
   ConfigureNetworkDriver networkType opts s =
     Some (Some (NetworkTypeError networkType), s)) ∧
  (∀ d r w',
     drivers s !! networkType = Some d →
     Config d opts (wld s) = (r, w') →
     ∃ s',
       ConfigureNetworkDriver networkType opts s = Some (DriverError <$> r, s') ∧
       trace s' = trace s ++ [CallConfig (Type_ d)] ∧
       wld s' = w' ∧
       networks s' = networks s ∧ endpoints s' = endpoints s ∧
       drivers s' = drivers s ∧
       c_locked s' = c_locked s ∧ n_locked s' = n_locked s).
Proof.
  split.
  - apply ConfigureNetworkDriver_unknown.
  - intros d r w' Hd Hr. eexists. split.
    { by apply (ConfigureNetworkDriver_driver networkType opts s d r w'). }
    done.
Qed.

(** X2.  When a registered network already has the name, [NewNetwork]
    returns [NetworkNameError]: the driver is not called, no identifier is
    drawn, and the registry, the endpoint tables and the drivers' world are
    what they were. *)
Theorem NewNetwork_name_collision networkType name opts (s : state) d i m :
  quiescent s →
  drivers s !! networkType = Some d →
  networks s !! i = Some m →
  network_name m = name →
  ∃ s',
    NewNetwork GenerateRandomID range_seed networkType name opts s =
      Some ((None, Some (NetworkNameError name)), s') ∧
    networks s' = networks s ∧ endpoints s' = endpoints s ∧
    trace s' = trace s ∧ id_calls s' = id_calls s ∧ wld s' = wld s ∧
    quiescent s'.
Proof.
  intros Q Hd Hm Hnm. eexists. split.
  { apply (NewNetwork_name_taken _ _ _ _ _ _ d); try done.
    apply name_in_use_true. exists m. split; [|done].
    apply elem_of_range. by exists i. }
  done.
Qed.

(** X3.  [NewNetwork] returns an error and no network, the registry being
    what it was, or a network and no error.  The network has the name asked
    for, the identifier the generator returned, and no endpoint; [Type()]
    answers the [Type()] of the driver registered under the network type,
    and the field [networkType] is left empty; the network is stored under
    its identifier after the one call of [CreateNetwork]. *)
Theorem NewNetwork_result networkType name opts (s s' : state) r :
  quiescent s →
  NewNetwork GenerateRandomID range_seed networkType name opts s = Some (r, s') →
  (∃ e, r = (None, Some e) ∧ networks s' = networks s) ∨
  (∃ n d,
     r = (Some n, None) ∧
     drivers s !! networkType = Some d ∧
     Name n = name ∧
     ID n = GenerateRandomID (id_calls s) ∧
     Type' n = Type_ d ∧
     network_networkType n = "" ∧
     networks s' = <[ID n := n]> (networks s) ∧
     endpoints_of n s' = ∅ ∧
     trace s' = trace s ++ [CallCreateNetwork (Type_ d) (ID n);
                            NetworksStore (ID n) (network_addr n)]).
Proof.
  intros Q Hrun.
  destruct (NewNetwork_inv _ _ _ _ _ _ Q Hrun)
    as [(_ & -> & ->)|[(d & i & m & _ & _ & _ & -> & ->)|
        (d & r0 & w' & Hd & _ & _ & -> & ->)]].
  - left. by eexists.
  - left. by eexists.
  - destruct r0 as [e|].
    + left. by eexists.
    + right. do 2 eexists. split; [done|]. split; [done|].
      repeat split. unfold endpoints_of. simpl. by rewrite lookup_insert_eq.
Qed.

(** X4.  The empty name is never found.  [NetworkByName("")] and
    [EndpointByName("")] return nil without looking at the tables, and
    [NewNetwork] does not refuse the empty name: a network created with it
    is found by [NetworkByID] and not by [NetworkByName]. *)
Theorem empty_name_not_found networkType opts (s s' : state) n :
  quiescent s →
  NewNetwork GenerateRandomID range_seed networkType "" opts s = Some ((Some n, None), s') →
  Name n = "" ∧
  NetworkByID (ID n) s' = Some (Some n, s') ∧
  NetworkByName range_seed "" s' = Some (None, s') ∧
  (∀ m, EndpointByName range_seed m "" s' = Some (None, s')).
Proof.
  intros Q Hrun.
  destruct (NewNetwork_inv _ _ _ _ _ _ Q Hrun)
    as [(_ & [=] & _)|[(d & i & m & _ & _ & _ & [=] & _)|
        (d & r0 & w' & Hd & _ & _ & Hr & ->)]].
  destruct r0 as [e|]; [done|]. injection Hr as ->.
  split; [done|]. split; [|done].
  rewrite NetworkByID_run by done. simpl. unfold ID. simpl.
  by rewrite lookup_insert_eq.
Qed.

(** X5.  [NetworkByName] with a name that is not empty leaves the tables as
    they are.  It returns nil exactly when no registered network has the
    name; otherwise it returns a registered network that has the name, and
    when no two registered networks share a name, that is the network with
    the name. *)
Theorem NetworkByName_spec (name : string) (s : state) :
  quiescent s → name ≠ "" →
  ∃ r s',
    NetworkByName range_seed name s = Some (r, s') ∧
    networks s' = networks s ∧ endpoints s' = endpoints s ∧
    trace s' = trace s ∧ quiescent s' ∧
    (r = None ↔ ∀ i n, networks s !! i = Some n → network_name n ≠ name) ∧
    (∀ n, r = Some n → network_name n = name ∧ ∃ i, networks s !! i = Some n) ∧
    (unique_names (networks s) →
     ∀ i n, networks s !! i = Some n → network_name n = name → r = Some n).
Proof.
  intros Q Hne. do 2 eexists. split; [by apply NetworkByName_run|].
  do 4 (split; [done|]).
  destruct (walk_by_name_cases network_name name
              (shuffle (range_seed (ranges s)) (map_to_list (networks s)).*2))
    as [[-> Hfree]|(y & -> & Hy & Hnm)].
  - assert (Hnone : ∀ i n, networks s !! i = Some n → network_name n ≠ name).
    { intros i n Hn. apply Hfree, elem_of_range. by exists i. }
    split; [done|]. split; [done|].
    intros _ i n Hn Hnm. by destruct (Hnone i n).
  - apply elem_of_range in Hy as [j Hj]. split; [|split].
    + split; [done|]. intros Hnone. by destruct (Hnone j y).
    + intros n [= <-]. split; [done|]. by exists j.
    + intros Hu i n Hn Hnm'. f_equal.
      assert (j = i) as -> by (apply (Hu j i y n); congruence).
      congruence.
Qed.

(** X6.  After a successful [NewNetwork] with a name that is not empty,
    [NetworkByName] with that name returns the network just created. *)
Theorem NewNetwork_then_NetworkByName networkType name opts (s s' : state) n :
  quiescent s → name ≠ "" →
  NewNetwork GenerateRandomID range_seed networkType name opts s = Some ((Some n, None), s') →
  ∃ s'', NetworkByName range_seed name s' = Some (Some n, s'').
Proof.
  intros Q Hne Hrun.
  destruct (NewNetwork_inv _ _ _ _ _ _ Q Hrun)
    as [(_ & [=] & _)|[(d & i & m & _ & _ & _ & [=] & _)|
        (d & r0 & w' & Hd & Hfree & _ & Hr & ->)]].
  destruct r0 as [e|]; [done|]. injection Hr as ->.
  set (n := mkNetwork (next_addr s) name "" (GenerateRandomID (id_calls s)) (Some d)) in *.
  eexists. rewrite NetworkByName_run by done. simpl. do 2 f_equal.
  match goal with
  | |- (walk _ ?l None).2 = _ =>
      destruct (walk_by_name_cases network_name name l) as [[_ Hno]|(y & -> & Hy & Hnm)]
  end.
  - destruct (Hno n); [|done].
    apply elem_of_range. eexists. apply lookup_insert_eq.
  - apply elem_of_range in Hy as [j Hj]. rewrite lookup_insert in Hj.
    case_decide as Hj'; [congruence|]. by destruct (Hfree j y).
Qed.

(** X7.  When no two registered networks share a name, a registered network
    that has been deleted is no longer found by its name. *)
Theorem Delete_then_NetworkByName (n : network) (s s' : state) :
  quiescent s →
  networks s !! network_id n = Some n →
  unique_names (networks s) →
  network_Delete n s = Some (None, s') →
  ∃ s'', NetworkByName range_seed (Name n) s' = Some (None, s'').
Proof.
  intros Q Hreg Hu Hrun.
  destruct (network_Delete_inv _ _ _ _ Q Hrun)
    as [(_ & [=] & _)|[(_ & _ & [=] & _)|(d & r0 & w' & _ & _ & _ & _ & Hr & ->)]].
  destruct r0 as [e|]; [done|].
  destruct (decide (Name n = "")) as [->|Hne].
  { by eexists. }
  eexists. rewrite NetworkByName_run by done. simpl. do 2 f_equal.
  rewrite walk_by_name_miss; [done|].
  intros m Hm Hnm. apply elem_of_range in Hm as [j Hj].
  apply lookup_delete_Some in Hj as [Hj' Hj].
  apply Hj'. by apply (Hu _ _ n m).
Qed.

(** ** Deletion, once more *)

(** X8.  What [NetworkByID] finds after [n.Delete()] has returned, by the
    value it returned: nothing after nil or [UnknownNetworkError]; what it
    found before after [ActiveEndpointsError]; and [n] itself after an error
    of the driver, whichever network was stored under the identifier before
    (the rollback stores the receiver). *)
Theorem Delete_then_NetworkByID (n : network) (s s' : state) r :
  quiescent s →
  network_Delete n s = Some (r, s') →
  quiescent s' ∧
  NetworkByID (ID n) s' =
    Some (match r with
          | None => None
          | Some (DriverError _) => Some n
          | Some (ActiveEndpointsError _ _) => networks s !! ID n
          | Some _ => None
          end, s').
Proof.
  intros Q Hrun.
  destruct (network_Delete_inv _ _ _ _ Q Hrun)
    as [(Hl & -> & ->)|[(_ & _ & -> & ->)|(d & r0 & w' & _ & _ & _ & _ & -> & ->)]].
  - split; [done|]. rewrite NetworkByID_run by done. unfold ID. by rewrite Hl.
  - split; [done|]. by rewrite NetworkByID_run.
  - split; [done|]. rewrite NetworkByID_run by done. unfold ID.
    destruct r0; simpl; by rewrite ?lookup_insert_eq, ?lookup_delete_eq.
Qed.

(** X9.  A second [Delete] after a successful one returns
    [UnknownNetworkError] and does nothing: the driver is not called again. *)
Theorem Delete_twice (n : network) (s s' : state) :
  quiescent s →
  network_Delete n s = Some (None, s') →
  network_Delete n s' =
    Some (Some (UnknownNetworkError (Name n) (ID n)), s').
Proof.
  intros Q Hrun.
  destruct (network_Delete_inv _ _ _ _ Q Hrun)
    as [(_ & [=] & _)|[(_ & _ & [=] & _)|(d & r0 & w' & _ & _ & _ & _ & Hr & ->)]].
  destruct r0 as [e|]; [done|].
  apply network_Delete_unknown; [done|]. simpl. apply lookup_delete_eq.
Qed.

(** X10.  A [Delete] that failed in the driver can be tried again: the next
    [Delete] passes both guards, deletes the entry, calls [DeleteNetwork]
    again and returns what it returns. *)
Theorem Delete_retry (n : network) (s s1 : state) (e : string) :
  quiescent s →
  network_Delete n s = Some (Some (DriverError e), s1) →
  ∃ d,
    network_driver n = Some d ∧
    ∀ r w',
      DeleteNetwork d (network_id n) (wld s1) = (r, w') →
      ∃ s2,
        network_Delete n s1 = Some (DriverError <$> r, s2) ∧
        trace s2 = trace s1 ++ NetworksDelete (network_id n) ::
                     CallDeleteNetwork (Type_ d) (network_id n) ::
                     match r with
                     | Some _ => [NetworksStore (network_id n) (network_addr n)]
                     | None => []
                     end ∧
        networks s2 !! network_id n = match r with Some _ => Some n | None => None end.
Proof.
  intros Q Hrun.
  destruct (network_Delete_inv _ _ _ _ Q Hrun)
    as [(_ & [=] & _)|[(_ & _ & [=] & _)|(d & r0 & w' & _ & Hemp & Hd & _ & Hr & ->)]].
  destruct r0 as [e'|]; [|done].
  exists d. split; [done|]. intros r w2 Hdrv. eexists. split.
  { apply (network_Delete_driver n _ d r w2); try done.
    simpl. rewrite lookup_insert_eq. by eexists. }
  simpl. split; [done|].
  destruct r; by rewrite ?lookup_insert_eq, ?lookup_delete_eq.
Qed.

(** ** Endpoints *)


(** X12.  What [EndpointByID] finds after [ep.Delete()] has returned: [ep]
    itself after an error of the driver (the rollback), nothing after nil
    and after [UnknownEndpointError]. *)
Theorem endpoint_Delete_then_EndpointByID (ep : endpoint) (s s' : state) r :
  quiescent s →
  endpoint_Delete ep s = Some (r, s') →
  quiescent s' ∧
  networks s' = networks s ∧
  EndpointByID (endpoint_network ep) (endpoint_ID ep) s' =
    Some (match r with
          | Some (DriverError _) => Some ep
          | _ => None
          end, s').
Proof.
  intros Q Hrun.
  destruct (endpoint_Delete_inv _ _ _ _ Q Hrun)
    as [(Hl & -> & ->)|(d & r0 & w' & _ & _ & _ & -> & ->)].
  - do 2 (split; [done|]). rewrite EndpointByID_run by done.
    unfold endpoint_ID. by rewrite Hl.
  - do 2 (split; [done|]). rewrite EndpointByID_run by done.
    unfold endpoints_of at 1. simpl. rewrite lookup_insert_eq. simpl.
    unfold endpoint_ID.
    destruct r0; simpl; by rewrite ?lookup_insert_eq, ?lookup_delete_eq.
Qed.

(** X13.  A second [Delete] of an endpoint after a successful one returns
    [UnknownEndpointError] and does nothing: the driver is not called
    again. *)
Theorem endpoint_Delete_twice (ep : endpoint) (s s' : state) :
  quiescent s →
  endpoint_Delete ep s = Some (None, s') →
  endpoint_Delete ep s' =
    Some (Some (UnknownEndpointError (endpoint_Name ep) (endpoint_ID ep)), s').
Proof.
  intros Q Hrun.
  destruct (endpoint_Delete_inv _ _ _ _ Q Hrun)
    as [(_ & [=] & _)|(d & r0 & w' & _ & _ & _ & Hr & ->)].
  destruct r0 as [e|]; [done|].
  apply endpoint_Delete_unknown; [done|].
  unfold endpoints_of at 1. simpl. rewrite lookup_insert_eq. simpl.
  apply lookup_delete_eq.
Qed.

(** X14.  [EndpointByName] with a name that is not empty returns nil when no
    endpoint of the table has the name, and otherwise an endpoint of the
    table that has the name.  Names of endpoints need not be unique: which
    endpoint comes back is a matter of the order of the range statement, and
    for every endpoint that has the name there is an order that returns
    it. *)
Theorem EndpointByName_spec (n : network) (name : string) (s : state) :
  quiescent s → name ≠ "" →
  (∃ r s',
     EndpointByName range_seed n name s = Some (r, s') ∧
     networks s' = networks s ∧ endpoints s' = endpoints s ∧ trace s' = trace s ∧
     (r = None ↔ ∀ i e, endpoints_of n s !! i = Some e → endpoint_name e ≠ name) ∧
     (∀ e, r = Some e → endpoint_name e = name ∧ ∃ i, endpoints_of n s !! i = Some e)) ∧
  (∀ i e,
     endpoints_of n s !! i = Some e → endpoint_name e = name →
     ∃ (order : nat → nat) s', EndpointByName order n name s = Some (Some e, s')).
Proof.
  intros Q Hne. split.
  - do 2 eexists. split; [by apply EndpointByName_run|].
    do 3 (split; [done|]).
    destruct (walk_by_name_cases endpoint_name name
                (shuffle (range_seed (ranges s)) (map_to_list (endpoints_of n s)).*2))
      as [[-> Hfree]|(y & -> & Hy & Hnm)].
    + split; [|done]. split; [|done].
      intros _ i e He. apply Hfree, elem_of_range. by exists i.
    + apply elem_of_range in Hy as [j Hj]. split.
      * split; [done|]. intros Hnone. by destruct (Hnone j y).
      * intros e [= <-]. split; [done|]. by exists j.
  - intros i e He Hnm.
    assert (Hin : e ∈ (map_to_list (endpoints_of n s)).*2).
    { apply list_elem_of_fmap. exists (i, e). split; [done|]. by apply elem_of_map_to_list. }
    apply elem_of_Permutation in Hin as [k Hk]. symmetry in Hk.
    destruct (shuffle_any_order _ _ Hk) as [seed Hseed].
    exists (λ _, seed). eexists.
    rewrite (EndpointByName_run' (λ _, seed)) by done.
    by rewrite Hseed, walk_by_name_head.
Qed.

(** ** Snapshots *)

(** X15.  With well-formed tables, the snapshot of [Networks] has one entry
    per registered network, and a network is in it exactly when
    [NetworkByID] with its identifier returns it; the same for [Endpoints]
    and [EndpointByID], network by network. *)
Theorem snapshots_and_lookups (s : state) :
  quiescent s → tables_wf s →
  (∃ l s',
     Networks range_seed s = Some (l, s') ∧
     length l = size (networks s) ∧
     ∀ n, n ∈ l ↔ NetworkByID (ID n) s = Some (Some n, s)) ∧
  (∀ n, ∃ l s',
     Endpoints range_seed n s = Some (l, s') ∧
     length l = size (endpoints_of n s) ∧
     ∀ e, e ∈ l ↔ EndpointByID n (endpoint_ID e) s = Some (Some e, s)).
Proof.
  intros Q Hwf. split.
  - do 2 eexists. split; [by apply Networks_run|]. split.
    { by rewrite shuffle_Permutation, length_fmap, length_map_to_list. }
    intros n. rewrite elem_of_range, NetworkByID_run by done. unfold ID. split.
    + intros [i Hi]. by rewrite <- (proj1 Hwf i n Hi) in Hi; rewrite Hi.
    + intros [= Hl]. by eexists.
  - intros n. do 2 eexists. split; [by apply Endpoints_run|]. split.
    { by rewrite shuffle_Permutation, length_fmap, length_map_to_list. }
    intros e. rewrite elem_of_range, EndpointByID_run by done. unfold endpoint_ID. split.
    + intros [i Hi].
      destruct (endpoints_of_wf n s Hwf i e Hi) as [<- _]. by rewrite Hi.
    + intros [= Hl]. by eexists.
Qed.

(** ** What holds in every state a sequential client reaches *)

Lemma exec_inv (c : api_call W options InfoData) (s s' : state) :
  exec GenerateRandomID range_seed c s = Some (tt, s') →
  match c with
  | DoNewNetwork networkType name opts =>
      ∃ r, NewNetwork GenerateRandomID range_seed networkType name opts s = Some (r, s')
  | DoDelete n => ∃ r, network_Delete n s = Some (r, s')
  | DoCreateEndpoint n name sboxKey opts =>
      ∃ r, network_CreateEndpoint GenerateRandomID n name sboxKey opts s = Some (r, s')
  | DoEndpointDelete ep => ∃ r, endpoint_Delete ep s = Some (r, s')
  end.
Proof.
  destruct c; unfold exec, mbind, M_bind; intros Hrun;
    match type of Hrun with
    | match ?m with _ => _ end = _ => destruct m as [[r s1]|] eqn:Hm; [|done]
    end;
    injection Hrun as <-; by exists r.
Qed.

Lemma exec_drivers (c : api_call W options InfoData) (s s' : state) :
  quiescent s →
  exec GenerateRandomID range_seed c s = Some (tt, s') →
  drivers s' = drivers s.
Proof.
  intros Q Hrun. apply exec_inv in Hrun. destruct c; destruct Hrun as [r Hrun].
  - destruct (NewNetwork_inv _ _ _ _ _ _ Q Hrun)
      as [(_ & _ & ->)|[(d & i & m & _ & _ & _ & _ & ->)|
          (d & r0 & w' & _ & _ & _ & _ & ->)]]; done.
  - destruct (network_Delete_inv _ _ _ _ Q Hrun)
      as [(_ & _ & ->)|[(_ & _ & _ & ->)|(d & r0 & w' & _ & _ & _ & _ & _ & ->)]]; done.
  - destruct (network_CreateEndpoint_inv _ _ _ _ _ _ _ Q Hrun)
      as (d & sinfo & r0 & w' & _ & _ & _ & ->); done.
  - destruct (endpoint_Delete_inv _ _ _ _ Q Hrun)
      as [(_ & _ & ->)|(d & r0 & w' & _ & _ & _ & _ & ->)]; done.
Qed.

Lemma endpoints_of_is_Some (n : network) (s : state) (i : UUID) :
  is_Some (endpoints_of n s !! i) →
  ∃ t, endpoints s !! network_addr n = Some t ∧ is_Some (t !! i).
Proof.
  unfold endpoints_of. destruct (endpoints s !! network_addr n) as [t|]; simpl.
  - intros Hi. by exists t.
  - rewrite lookup_empty. by intros [? [=]].
Qed.

Lemma ids_generated_mono (s s' : state) :
  ids_generated GenerateRandomID s →
  id_calls s ≤ id_calls s' →
  (∀ i, is_Some (networks s' !! i) →
        is_Some (networks s !! i) ∨
        (i = GenerateRandomID (id_calls s) ∧ id_calls s < id_calls s')) →
  (∀ a t i, endpoints s' !! a = Some t → is_Some (t !! i) →
            (∃ t0, endpoints s !! a = Some t0 ∧ is_Some (t0 !! i)) ∨
            (i = GenerateRandomID (id_calls s) ∧ id_calls s < id_calls s')) →
  ids_generated GenerateRandomID s'.
Proof.
  intros [Hn He] Hle Hn' He'. split.
  - intros i Hi. destruct (Hn' i Hi) as [Hold|[-> Hlt]].
    + destruct (Hn i Hold) as (k & Hk & ->). exists k. split; [lia|done].
    + by exists (id_calls s).
  - intros a t i Ht Hi. destruct (He' a t i Ht Hi) as [(t0 & Ht0 & Hi0)|[-> Hlt]].
    + destruct (He a t0 i Ht0 Hi0) as (k & Hk & ->). exists k. split; [lia|done].
    + by exists (id_calls s).
Qed.

Lemma exec_ids_generated (c : api_call W options InfoData) (s s' : state) :
  quiescent s →
  ids_generated GenerateRandomID s →
  exec GenerateRandomID range_seed c s = Some (tt, s') →
  ids_generated GenerateRandomID s'.
Proof.
  intros Q Hgen Hrun. apply exec_inv in Hrun. destruct c; destruct Hrun as [r Hrun].
  - destruct (NewNetwork_inv _ _ _ _ _ _ Q Hrun)
      as [(_ & _ & ->)|[(d & i & m & _ & _ & _ & _ & ->)|
          (d & r0 & w' & _ & _ & _ & _ & ->)]]; [done|done|].
    apply (ids_generated_mono s); simpl; [done|lia| |].
    + intros i. destruct r0; [by left|]. rewrite lookup_insert. case_decide as Hi.
      * right. split; [done|lia].
      * by left.
    + intros a t i. rewrite lookup_insert. case_decide as Ha.
      * intros [= <-]. rewrite lookup_empty. by intros [? [=]].
      * intros Ht Hi. left. by exists t.
  - destruct (network_Delete_inv _ _ _ _ Q Hrun)
      as [(_ & _ & ->)|[(_ & _ & _ & ->)|(d & r0 & w' & Hreg & _ & _ & _ & _ & ->)]];
      [done|done|].
    apply (ids_generated_mono s); simpl; [done|lia| |].
    + intros i Hi. left. destruct r0.
      * rewrite lookup_insert in Hi. case_decide as Hi'; [by subst i|done].
      * destruct Hi as [x Hx]. apply lookup_delete_Some in Hx as [_ Hx]. by eexists.
    + intros a t i Ht Hi. left. by exists t.
  - destruct (network_CreateEndpoint_inv _ _ _ _ _ _ _ Q Hrun)
      as (d & sinfo & r0 & w' & _ & _ & _ & ->).
    apply (ids_generated_mono s); simpl; [done|lia|by left|].
    intros a t i. destruct r0; [intros Ht Hi; left; by exists t|].
    rewrite lookup_insert. case_decide as Ha.
    + intros [= <-]. rewrite lookup_insert. case_decide as Hi.
      * intros _. right. split; [done|lia].
      * intros Hi'. left. subst a. by apply endpoints_of_is_Some.
    + intros Ht Hi. left. by exists t.
  - destruct (endpoint_Delete_inv _ _ _ _ Q Hrun)
      as [(_ & _ & ->)|(d & r0 & w' & Hin & _ & _ & _ & ->)]; [done|].
    apply (ids_generated_mono s); simpl; [done|lia|by left|].
    intros a t i. rewrite lookup_insert. case_decide as Ha.
    + intros [= <-] Hi. left. subst a. apply endpoints_of_is_Some.
      destruct r0.
      * rewrite lookup_insert in Hi. case_decide as Hi'; [by subst i|done].
      * destruct Hi as [x Hx]. apply lookup_delete_Some in Hx as [_ Hx]. by eexists.
    + intros Ht Hi. left. by exists t.
Qed.

Lemma ids_generated_New (drv : gmap string Driver) w :
  ids_generated GenerateRandomID (New drv w).
Proof.
  split.
  - intros i. simpl. rewrite lookup_empty. by intros [? [=]].
  - intros a t i. simpl. by rewrite lookup_empty.
Qed.

Lemma exec_all_invariants (cs : list (api_call W options InfoData)) (s s' : state) :
  quiescent s → tables_wf s → ids_generated GenerateRandomID s →
  exec_all GenerateRandomID range_seed cs s = Some (tt, s') →
  quiescent s' ∧ tables_wf s' ∧ ids_generated GenerateRandomID s' ∧
  drivers s' = drivers s.
Proof.
  revert s. induction cs as [|c cs IH]; intros s Q Hwf Hgen Hrun.
  - injection Hrun as <-. done.
  - simpl in Hrun. unfold mbind, M_bind in Hrun.
    destruct (exec GenerateRandomID range_seed c s) as [[[] s1]|] eqn:Hc; [|done].
    destruct (exec_wf _ _ c s s1 Q Hwf Hc) as [Q1 Hwf1].
    pose proof (exec_ids_generated c s s1 Q Hgen Hc) as Hgen1.
    pose proof (exec_drivers c s s1 Q Hc) as Hdrv.
    destruct (IH s1 Q1 Hwf1 Hgen1 Hrun) as (Q' & Hwf' & Hgen' & Hdrv').
    do 3 (split; [done|]). by rewrite Hdrv', Hdrv.
Qed.

(** X16.  In every state reached from [New()] by calls of [NewNetwork],
    [Delete], [CreateEndpoint] and the [Delete] of endpoints, on whatever
    handles and whatever the drivers answer: no lock is held, every network
    of the registry is stored under its own identifier, every endpoint is
    stored under its own identifier in the table of its own network, and the
    table of drivers is the one [New()] was given. *)
Theorem reachable_invariant (drv : gmap string Driver) w cs (s : state) :
  exec_all GenerateRandomID range_seed cs (New drv w) = Some (tt, s) →
  quiescent s ∧
  (∀ i n, networks s !! i = Some n → ID n = i) ∧
  (∀ n i e, endpoints_of n s !! i = Some e →
            endpoint_ID e = i ∧ network_addr (endpoint_network e) = network_addr n) ∧
  drivers s = drv.
Proof.
  intros Hrun.
  destruct (exec_all_invariants cs (New drv w) s (quiescent_New drv w)
              (tables_wf_New drv w) (ids_generated_New drv w) Hrun)
    as (Q & Hwf & _ & Hdrv).
  split; [done|]. split; [apply Hwf|]. split; [|done].
  intros n i e. apply (endpoints_of_wf n s Hwf).
Qed.

(** X17.  With a generator that never returns the same identifier twice, in
    every state reached from [New()], a successful [NewNetwork] stores its
    network under an identifier that was free: the registry grows by one and
    every network registered before is still registered.  Likewise a
    successful [CreateEndpoint] and the table of its network. *)
Theorem fresh_ids_no_overwrite (drv : gmap string Driver) w cs (s : state) :
  Inj (=) (=) GenerateRandomID →
  exec_all GenerateRandomID range_seed cs (New drv w) = Some (tt, s) →
  (∀ networkType name opts n s',
     NewNetwork GenerateRandomID range_seed networkType name opts s
       = Some ((Some n, None), s') →
     networks s !! ID n = None ∧
     size (networks s') = S (size (networks s)) ∧
     ∀ i m, networks s !! i = Some m → networks s' !! i = Some m) ∧
  (∀ n name sboxKey opts ep s',
     network_CreateEndpoint GenerateRandomID n name sboxKey opts s
       = Some ((Some ep, None), s') →
     endpoints_of n s !! endpoint_ID ep = None ∧
     size (endpoints_of n s') = S (size (endpoints_of n s)) ∧
     ∀ i e, endpoints_of n s !! i = Some e → endpoints_of n s' !! i = Some e).
Proof.
  intros Hinj Hreach.
  destruct (exec_all_invariants cs (New drv w) s (quiescent_New drv w)
              (tables_wf_New drv w) (ids_generated_New drv w) Hreach)
    as (Q & _ & [Hn He] & _).
  split.
  - intros networkType name opts n s' Hrun.
    destruct (NewNetwork_inv _ _ _ _ _ _ Q Hrun)
      as [(_ & [=] & _)|[(d & i & m & _ & _ & _ & [=] & _)|
          (d & r0 & w' & _ & _ & _ & Hr & ->)]].
    destruct r0 as [e|]; [done|]. injection Hr as ->. unfold ID. simpl.
    assert (Hfree : networks s !! GenerateRandomID (id_calls s) = None).
    { apply eq_None_not_Some. intros Hsome.
      destruct (Hn _ Hsome) as (k & Hk & Heq). apply Hinj in Heq. lia. }
    split; [done|]. split; [by apply map_size_insert_None|].
    intros i m Hm. rewrite lookup_insert_ne; [done|]. congruence.
  - intros n name sboxKey opts ep s' Hrun.
    destruct (network_CreateEndpoint_inv _ _ _ _ _ _ _ Q Hrun)
      as (d & sinfo & r0 & w' & _ & _ & Hr & ->).
    destruct r0 as [e|]; [done|]. injection Hr as ->. unfold endpoint_ID. simpl.
    assert (Hfree : endpoints_of n s !! GenerateRandomID (id_calls s) = None).
    { apply eq_None_not_Some. intros Hsome.
      apply endpoints_of_is_Some in Hsome as (t & Ht & Hi).
      destruct (He _ _ _ Ht Hi) as (k & Hk & Heq). apply Hinj in Heq. lia. }
    match goal with
    | |- context [endpoints_of n (mkState ?a ?b ?c (<[?k := ?t]> ?e) ?f ?g ?h ?i ?j ?l)] =>
        rewrite (endpoints_of_stored n (mkState a b c (<[k := t]> e) f g h i j l) e t eq_refl)
    end.
    split; [done|]. split; [by apply map_size_insert_None|].
    intros i e He'. rewrite lookup_insert_ne; [done|]. congruence.
Qed.

(** X18.  [NewNetwork] does not compare the generated identifier with the
    registry.  When the generator returns the identifier of a registered
    network [m], a successful [NewNetwork] stores the new network in its
    place: the registry does not grow, [NetworkByID] with the identifier
    returns the new network, and [m] is no longer stored under it. *)
Theorem id_collision_replaces networkType name opts (s s' : state) n m :
  quiescent s →
  networks s !! GenerateRandomID (id_calls s) = Some m →
  NewNetwork GenerateRandomID range_seed networkType name opts s = Some ((Some n, None), s') →
  ID n = GenerateRandomID (id_calls s) ∧
  n ≠ m ∧
  NetworkByID (ID n) s' = Some (Some n, s') ∧
  size (networks s') = size (networks s) ∧
  (∀ i, networks s' !! i = Some m → i ≠ ID n ∧ networks s !! i = Some m).
Proof.
  intros Q Hm Hrun.
  destruct (NewNetwork_inv _ _ _ _ _ _ Q Hrun)
    as [(_ & [=] & _)|[(d & i & m' & _ & _ & _ & [=] & _)|
        (d & r0 & w' & _ & Hfree & _ & Hr & ->)]].
  destruct r0 as [e|]; [done|]. injection Hr as ->. unfold ID. simpl.
  assert (Hne : mkNetwork (next_addr s) name "" (GenerateRandomID (id_calls s)) (Some d) ≠ m).
  { intros <-. by destruct (Hfree _ _ Hm). }
  split; [done|]. split; [done|]. split; [|split].
  - rewrite NetworkByID_run by done. simpl. by rewrite lookup_insert_eq.
  - apply map_size_insert_Some. by eexists.
  - intros i. rewrite lookup_insert. case_decide as Hi; [by intros [= ?]|done].
Qed.

End Coverage.

(** ** The further properties on the concrete setting *)

Lemma ex_s1_unique_names : unique_names (networks ex_s1).
Proof.
  assert (Hreg : networks ex_s1 = {["0" := ex_net1]}) by reflexivity.
  intros i j n1 n2. rewrite Hreg. intros H1 H2 _.
  apply lookup_singleton_Some in H1 as [<- _].
  by apply lookup_singleton_Some in H2 as [<- _].
Qed.

(** No driver for "overlay"; the driver "bridge" accepts its configuration. *)
Lemma ConfigureNetworkDriver_spec_witness :
  ConfigureNetworkDriver "overlay" tt ex_init =
    Some (Some (NetworkTypeError "overlay"), ex_init) ∧
  ∃ s',
    ConfigureNetworkDriver "bridge" tt ex_init = Some (None, s') ∧
    trace s' = trace ex_init ++ [CallConfig "bridge"] ∧
    wld s' = ex_world ∧
    networks s' = networks ex_init ∧ endpoints s' = endpoints ex_init ∧
    drivers s' = drivers ex_init ∧
    c_locked s' = c_locked ex_init ∧ n_locked s' = n_locked ex_init.
Proof.
  split.
  - apply (ConfigureNetworkDriver_spec "overlay" tt ex_init). evaluate.
  - apply (proj2 (ConfigureNetworkDriver_spec "bridge" tt ex_init) ex_bridge None ex_world);
      evaluate.
Defined.

(** "net1" is taken. *)
Lemma NewNetwork_name_collision_witness :
  ∃ s',
    NewNetwork ex_gen ex_seed "stuck" "net1" tt ex_s1 =
      Some ((None, Some (NetworkNameError "net1")), s') ∧
    networks s' = networks ex_s1 ∧ endpoints s' = endpoints ex_s1 ∧
    trace s' = trace ex_s1 ∧ id_calls s' = id_calls ex_s1 ∧ wld s' = wld ex_s1 ∧
    quiescent s'.
Proof.
  apply (NewNetwork_name_collision ex_gen ex_seed "stuck" "net1" tt ex_s1 ex_stuck
           "0" ex_net1).
  - apply ex_s1_quiescent.
  - evaluate.
  - evaluate.
  - evaluate.
Defined.

(** The first network of the session. *)
Lemma NewNetwork_result_witness :
  let r : option (network unit unit string) * option error := (Some ex_net1, None) in
  (∃ e, r = (None, Some e) ∧ networks ex_s1 = networks ex_init) ∨
  (∃ n d,
     r = (Some n, None) ∧
     drivers ex_init !! "bridge" = Some d ∧
     Name n = "net1" ∧
     ID n = ex_gen (id_calls ex_init) ∧
     Type' n = Type_ d ∧
     network_networkType n = "" ∧
     networks ex_s1 = <[ID n := n]> (networks ex_init) ∧
     endpoints_of n ex_s1 = ∅ ∧
     trace ex_s1 = trace ex_init ++ [CallCreateNetwork (Type_ d) (ID n);
                                     NetworksStore (ID n) (network_addr n)]).
Proof.
  intros r.
  apply (NewNetwork_result ex_gen ex_seed "bridge" "net1" tt ex_init ex_s1 r).
  - apply quiescent_New.
  - evaluate.
Defined.

(** A network without a name. *)
Lemma empty_name_not_found_witness :
  let n := mkNetwork 0 "" "" "0" (Some ex_bridge) in
  let s' := state_after (NewNetwork ex_gen ex_seed "bridge" "" tt) ex_init in
  Name n = "" ∧
  NetworkByID (ID n) s' = Some (Some n, s') ∧
  NetworkByName ex_seed "" s' = Some (None, s') ∧
  (∀ m, EndpointByName ex_seed m "" s' = Some (None, s')).
Proof.
  intros n s'.
  apply (empty_name_not_found ex_gen ex_seed "bridge" tt ex_init s' n).
  - apply quiescent_New.
  - evaluate.
Defined.

Lemma NetworkByName_spec_witness :
  ∃ r s',
    NetworkByName ex_seed "net1" ex_s1 = Some (r, s') ∧
    networks s' = networks ex_s1 ∧ endpoints s' = endpoints ex_s1 ∧
    trace s' = trace ex_s1 ∧ quiescent s' ∧
    (r = None ↔ ∀ i n, networks ex_s1 !! i = Some n → network_name n ≠ "net1") ∧
    (∀ n, r = Some n → network_name n = "net1" ∧ ∃ i, networks ex_s1 !! i = Some n) ∧
    (unique_names (networks ex_s1) →
     ∀ i n, networks ex_s1 !! i = Some n → network_name n = "net1" → r = Some n).
Proof.
  apply (NetworkByName_spec ex_seed "net1" ex_s1).
  - apply ex_s1_quiescent.
  - discriminate.
Defined.

Lemma NewNetwork_then_NetworkByName_witness :
  ∃ s'', NetworkByName ex_seed "net1" ex_s1 = Some (Some ex_net1, s'').
Proof.
  apply (NewNetwork_then_NetworkByName ex_gen ex_seed "bridge" "net1" tt ex_init ex_s1 ex_net1).
  - apply quiescent_New.
  - discriminate.
  - evaluate.
Defined.

Lemma Delete_then_NetworkByName_witness :
  ∃ s'', NetworkByName ex_seed (Name ex_net1) ex_s3 = Some (None, s'').
Proof.
  apply (Delete_then_NetworkByName ex_seed ex_net1 ex_s1 ex_s3).
  - apply ex_s1_quiescent.
  - evaluate.
  - apply ex_s1_unique_names.
  - evaluate.
Defined.

(** The driver "stuck" refuses: [net2] is found again. *)
Lemma Delete_then_NetworkByID_witness :
  let s' := state_after (network_Delete ex_net2) ex_t1 in
  quiescent s' ∧ NetworkByID (ID ex_net2) s' = Some (Some ex_net2, s').
Proof.
  intros s'.
  apply (Delete_then_NetworkByID ex_net2 ex_t1 s' (Some (DriverError "device busy"))).
  - apply ex_t1_quiescent.
  - evaluate.
Defined.

Lemma Delete_twice_witness :
  network_Delete ex_net1 ex_s3 = Some (Some (UnknownNetworkError "net1" "0"), ex_s3).
Proof.
  apply (Delete_twice ex_net1 ex_s1 ex_s3).
  - apply ex_s1_quiescent.
  - evaluate.
Defined.

Lemma Delete_retry_witness :
  let s1 := state_after (network_Delete ex_net2) ex_t1 in
  ∃ d,
    network_driver ex_net2 = Some d ∧
    ∀ r w',
      DeleteNetwork d (network_id ex_net2) (wld s1) = (r, w') →
      ∃ s2,
        network_Delete ex_net2 s1 = Some (DriverError <$> r, s2) ∧
        trace s2 = trace s1 ++ NetworksDelete (network_id ex_net2) ::
                     CallDeleteNetwork (Type_ d) (network_id ex_net2) ::
                     match r with
                     | Some _ => [NetworksStore (network_id ex_net2) (network_addr ex_net2)]
                     | None => []
                     end ∧
        networks s2 !! network_id ex_net2 =
          match r with Some _ => Some ex_net2 | None => None end.
Proof.
  intros s1.
  apply (Delete_retry ex_net2 ex_t1 s1 "device busy").
  - apply ex_t1_quiescent.
  - evaluate.
Defined.


(** The driver "stuck" refuses: [ep2] is found again. *)
Lemma endpoint_Delete_then_EndpointByID_witness :
  let s' := state_after (endpoint_Delete ex_ep2) ex_t2 in
  quiescent s' ∧
  networks s' = networks ex_t2 ∧
  EndpointByID (endpoint_network ex_ep2) (endpoint_ID ex_ep2) s' = Some (Some ex_ep2, s').
Proof.
  intros s'.
  apply (endpoint_Delete_then_EndpointByID ex_ep2 ex_t2 s' (Some (DriverError "device busy"))).
  - apply ex_t2_quiescent.
  - evaluate.
Defined.

Lemma endpoint_Delete_twice_witness :
  let s' := state_after (endpoint_Delete ex_ep1) ex_s2 in
  endpoint_Delete ex_ep1 s' = Some (Some (UnknownEndpointError "ep1" "1"), s').
Proof.
  intros s'.
  apply (endpoint_Delete_twice ex_ep1 ex_s2 s').
  - apply ex_s2_quiescent.
  - evaluate.
Defined.

Lemma EndpointByName_spec_witness :
  (∃ r s',
     EndpointByName ex_seed ex_net1 "ep1" ex_s2 = Some (r, s') ∧
     networks s' = networks ex_s2 ∧ endpoints s' = endpoints ex_s2 ∧
     trace s' = trace ex_s2 ∧
     (r = None ↔
      ∀ i e, endpoints_of ex_net1 ex_s2 !! i = Some e → endpoint_name e ≠ "ep1") ∧
     (∀ e, r = Some e →
           endpoint_name e = "ep1" ∧ ∃ i, endpoints_of ex_net1 ex_s2 !! i = Some e)) ∧
  (∀ i e,
     endpoints_of ex_net1 ex_s2 !! i = Some e → endpoint_name e = "ep1" →
     ∃ (order : nat → nat) s', EndpointByName order ex_net1 "ep1" ex_s2 = Some (Some e, s')).
Proof.
  apply (EndpointByName_spec ex_seed ex_net1 "ep1" ex_s2).
  - apply ex_s2_quiescent.
  - discriminate.
Defined.

Lemma snapshots_and_lookups_witness :
  (∃ l s',
     Networks ex_seed ex_s2 = Some (l, s') ∧
     length l = size (networks ex_s2) ∧
     ∀ n, n ∈ l ↔ NetworkByID (ID n) ex_s2 = Some (Some n, ex_s2)) ∧
  (∀ n, ∃ l s',
     Endpoints ex_seed n ex_s2 = Some (l, s') ∧
     length l = size (endpoints_of n ex_s2) ∧
     ∀ e, e ∈ l ↔ EndpointByID n (endpoint_ID e) ex_s2 = Some (Some e, ex_s2)).
Proof.
  apply (snapshots_and_lookups ex_seed ex_s2).
  - apply ex_s2_quiescent.
  - apply ex_s2_wf.
Defined.

Lemma reachable_invariant_witness :
  quiescent ex_s2 ∧
  (∀ i n, networks ex_s2 !! i = Some n → ID n = i) ∧
  (∀ n i e, endpoints_of n ex_s2 !! i = Some e →
            endpoint_ID e = i ∧ network_addr (endpoint_network e) = network_addr n) ∧
  drivers ex_s2 = ex_drivers.
Proof.
  apply (reachable_invariant ex_gen ex_seed ex_drivers ex_world
           [DoNewNetwork "bridge" "net1" tt; DoCreateEndpoint ex_net1 "ep1" "/ns/path" tt]
           ex_s2).
  apply ex_s2_reached.
Defined.

Lemma ex_gen_inj : Inj (=) (=) ex_gen.
Proof. intros j k Hjk. unfold ex_gen in Hjk. by apply (inj pretty) in Hjk. Qed.

Lemma fresh_ids_no_overwrite_witness :
  (∀ networkType name opts n s',
     NewNetwork ex_gen ex_seed networkType name opts ex_s2 = Some ((Some n, None), s') →
     networks ex_s2 !! ID n = None ∧
     size (networks s') = S (size (networks ex_s2)) ∧
     ∀ i m, networks ex_s2 !! i = Some m → networks s' !! i = Some m) ∧
  (∀ n name sboxKey opts ep s',
     network_CreateEndpoint ex_gen n name sboxKey opts ex_s2 = Some ((Some ep, None), s') →
     endpoints_of n ex_s2 !! endpoint_ID ep = None ∧
     size (endpoints_of n s') = S (size (endpoints_of n ex_s2)) ∧
     ∀ i e, endpoints_of n ex_s2 !! i = Some e → endpoints_of n s' !! i = Some e).
Proof.
  apply (fresh_ids_no_overwrite ex_gen ex_seed ex_drivers ex_world
           [DoNewNetwork "bridge" "net1" tt; DoCreateEndpoint ex_net1 "ep1" "/ns/path" tt]
           ex_s2).
  - apply ex_gen_inj.
  - apply ex_s2_reached.
Defined.

(** A generator that always answers "0": the second network takes the place
    of [net1]. *)
Lemma id_collision_replaces_witness :
  let n := mkNetwork 1 "net2" "" "0" (Some ex_bridge) in
  let s' := state_after (NewNetwork (λ _, "0") ex_seed "bridge" "net2" tt) ex_s1 in
  ID n = "0" ∧
  n ≠ ex_net1 ∧
  NetworkByID (ID n) s' = Some (Some n, s') ∧
  size (networks s') = size (networks ex_s1) ∧
  (∀ i, networks s' !! i = Some ex_net1 → i ≠ ID n ∧ networks ex_s1 !! i = Some ex_net1).
Proof.
  intros n s'.
  apply (id_collision_replaces (λ _, "0") ex_seed "bridge" "net2" tt ex_s1 s' n ex_net1).
  - apply ex_s1_quiescent.
  - evaluate.
  - evaluate.
Defined.
